(** * Angular-Mentor: audio playback, live session and cache layer

    A shallow embedding of the TypeScript sources

      - [src/App.tsx]                      (clip player: [stopAudio], [playAudio])
      - [components/VoiceAssistant.tsx]    ([encode], [decode], [stopSession],
                                            [startSession], the [onmessage] callback)
      - [src/services/dbService.ts]        (Firestore cache layer)
      - [src/services/geminiService.ts]    ([getAudioFromText])

    JavaScript strings are sequences of UTF-16 code units ([list N]);
    [Uint8Array]s are [list byte]; refs ([useRef]) and React state are
    fields of a record that every handler takes and returns; a thrown
    exception is the [None] (or [Threw]) result of the call that throws,
    and a [try]/[catch] is the [match] on it.  Audio time is counted in sample
    frames of the 24 kHz output context, so that [buffer.duration] is the
    frame count of the decoded buffer and all arithmetic on time is exact. *)

From Stdlib Require Import ZArith NArith List String Ascii Bool Lia ZifyNat ZifyN.
From Stdlib.Strings Require Import Byte.
From stdpp Require Import gmap strings list.
Import ListNotations.

#[local] Open Scope N_scope.

(** ** JavaScript strings *)

Abbreviation jsstring := (list N).

(** A string literal of the source, as code units. *)
Definition js (s : string) : jsstring :=
  map N_of_ascii (list_ascii_of_string s).

(** An optional string in a condition: [undefined], [null] and the empty
    string are falsy. *)
Definition truthy (s : option jsstring) : option jsstring :=
  match s with
  | Some (c :: r) => Some (c :: r)
  | _ => None
  end.

(** [Uint8Array] element store: the value modulo 256. *)
Definition u8 (n : N) : byte :=
  match Byte.of_N (n mod 256) with
  | Some b => b
  | None => x00
  end.

(** ** The host's base64 ([btoa], [atob])

    [btoa] and [atob] are built-ins of the browser; they are modelled after
    the algorithms "forgiving-base64 encode" and "forgiving-base64 decode"
    of the WHATWG Infra standard, which the HTML standard prescribes for
    them. *)

Module Host.

Definition pad : N := 61.  (* '=' *)

(** The base64 alphabet: [A-Z], [a-z], [0-9], [+], [/]. *)
Definition b64_char (i : N) : N :=
  if i <? 26 then i + 65
  else if i <? 52 then i + 71
  else if i <? 62 then i - 4
  else if i =? 62 then 43
  else 47.

Definition b64_index (c : N) : option N :=
  if (65 <=? c) && (c <=? 90) then Some (c - 65)
  else if (97 <=? c) && (c <=? 122) then Some (c - 71)
  else if (48 <=? c) && (c <=? 57) then Some (c + 4)
  else if c =? 43 then Some 62
  else if c =? 47 then Some 63
  else None.

(** Three octets give four sextets; a last group of one or two octets
    gives two or three, the missing low bits being zero. *)
Fixpoint bytes_to_sextets (bs : list N) : list N :=
  match bs with
  | x :: y :: z :: rest =>
      x / 4 :: (x mod 4) * 16 + y / 16 :: (y mod 16) * 4 + z / 64 :: z mod 64
        :: bytes_to_sextets rest
  | [x; y] => [x / 4; (x mod 4) * 16 + y / 16; (y mod 16) * 4]
  | [x] => [x / 4; (x mod 4) * 16]
  | [] => []
  end.

Definition padding (len : nat) : jsstring :=
  match (len mod 3)%nat with
  | 1%nat => [pad; pad]
  | 2%nat => [pad]
  | _ => []
  end.

(** [btoa(s)]: throws [InvalidCharacterError] ([None]) when [s] holds a
    code unit above U+00FF. *)
Definition btoa (s : jsstring) : option jsstring :=
  if forallb (fun c => c <? 256) s
  then Some (map b64_char (bytes_to_sextets s) ++ padding (length s))
  else None.

(** ASCII whitespace: TAB, LF, FF, CR, SPACE. *)
Definition is_ascii_whitespace (c : N) : bool :=
  (c =? 9) || (c =? 10) || (c =? 12) || (c =? 13) || (c =? 32).

(** "If data ends with one or two U+003D (=) code points, remove them." *)
Definition drop_last_pad (d : jsstring) : option jsstring :=
  match rev d with
  | c :: r => if c =? pad then Some (rev r) else None
  | [] => None
  end.

Definition strip_padding (d : jsstring) : jsstring :=
  match drop_last_pad d with
  | Some d1 =>
      match drop_last_pad d1 with
      | Some d2 => d2
      | None => d1
      end
  | None => d
  end.

Fixpoint indices (d : jsstring) : option (list N) :=
  match d with
  | [] => Some []
  | c :: r =>
      match b64_index c, indices r with
      | Some i, Some ks => Some (i :: ks)
      | _, _ => None
      end
  end.

(** The bit buffer of the decoder, read four sextets at a time; a rest of
    12 bits loses its last four, a rest of 18 bits its last two. *)
Fixpoint sextets_to_bytes (xs : list N) : list N :=
  match xs with
  | a :: b :: c :: d :: rest =>
      a * 4 + b / 16 :: (b mod 16) * 16 + c / 4 :: (c mod 4) * 64 + d
        :: sextets_to_bytes rest
  | [a; b; c] => [a * 4 + b / 16; (b mod 16) * 16 + c / 4]
  | [a; b] => [a * 4 + b / 16]
  | _ => []
  end.

(** [atob(s)]: throws [InvalidCharacterError] ([None]) on failure. *)
Definition atob (s : jsstring) : option jsstring :=
  let d := List.filter (fun c => negb (is_ascii_whitespace c)) s in
  let d := if (length d mod 4 =? 0)%nat then strip_padding d else d in
  if (length d mod 4 =? 1)%nat then None
  else match indices d with
       | Some xs => Some (sextets_to_bytes xs)
       | None => None
       end.

End Host.

(** ** [encode] and [decode] (VoiceAssistant.tsx; [decode] also in App.tsx) *)

(** [binary += String.fromCharCode(bytes[i])] for each element, then
    [btoa(binary)]. *)
Definition encode (bytes : list byte) : option jsstring :=
  Host.btoa (map Byte.to_N bytes).

(** [atob(base64)], then [bytes[i] = binaryString.charCodeAt(i)] into a
    [Uint8Array] of the same length. *)
Definition decode (base64 : jsstring) : option (list byte) :=
  match Host.atob base64 with
  | Some binaryString => Some (map u8 binaryString)
  | None => None
  end.


(** Canonical base64, the strings [encode] writes: groups of four alphabet
    characters, the last group possibly ending in one or two '=', in which
    case the unused low bits of the sextet before the padding are zero. *)
Definition in_alphabet (c : N) : bool :=
  match Host.b64_index c with
  | Some _ => true
  | None => false
  end.

Definition last_quad (a b c d : N) : bool :=
  match Host.b64_index a, Host.b64_index b with
  | Some _, Some j =>
      if (c =? Host.pad) && (d =? Host.pad) then j mod 16 =? 0
      else match Host.b64_index c with
           | Some k => if d =? Host.pad then k mod 4 =? 0 else in_alphabet d
           | None => false
           end
  | _, _ => false
  end.

Fixpoint canonical_b64 (s : jsstring) : bool :=
  match s with
  | [] => true
  | a :: b :: c :: d :: rest =>
      match rest with
      | [] => last_quad a b c d
      | _ :: _ =>
          in_alphabet a && in_alphabet b && in_alphabet c && in_alphabet d
          && canonical_b64 rest
      end
  | _ => false
  end.

(** ** Firebase: the identity and document-store collaborators

    [auth.currentUser] and the two Firestore collections are state of the
    hosted backend.  A Firestore call either succeeds or rejects
    ([firestore_down]); the console and the requests sent to the
    text-to-speech model are kept as traces. *)

Record User := { uid : jsstring; emailVerified : bool }.

Record GroundingChunk := { web : option (jsstring * jsstring) }.

(** [interface CachedEntry extends AIResponse]: the fields [answer] and
    [sources] of [AIResponse], then its own. *)
Record CachedEntry := {
  answer : jsstring;
  sources : list GroundingChunk;
  questionId : jsstring;
  audioBase64 : option jsstring;
  timestamp : Z
}.

Record Question := {
  id : jsstring;
  text : jsstring;
  category : jsstring;
  isCustom : option bool
}.

(** A document of [user_questions]: [{...q, userId, createdAt}]. *)
Record QuestionDoc := {
  doc_question : Question;
  userId : jsstring;
  createdAt : Z
}.

Inductive LogEntry :=
| Warn (msg : string)
| Error (msg : string).

Record World := {
  currentUser : option User;                   (* auth.currentUser *)
  ai_answers : gmap (list N) CachedEntry;      (* ANSWERS_COLLECTION *)
  user_questions : gmap (list N) QuestionDoc;  (* QUESTIONS_COLLECTION *)
  firestore_down : bool;
  now_ms : Z;                                  (* Date.now() *)
  console : list LogEntry;
  tts_requests : list jsstring
}.

Definition log (e : LogEntry) (w : World) : World :=
  {| currentUser := currentUser w; ai_answers := ai_answers w;
     user_questions := user_questions w; firestore_down := firestore_down w;
     now_ms := now_ms w; console := console w ++ [e];
     tts_requests := tts_requests w |}.

Definition set_ai_answers (m : gmap (list N) CachedEntry) (w : World) : World :=
  {| currentUser := currentUser w; ai_answers := m;
     user_questions := user_questions w; firestore_down := firestore_down w;
     now_ms := now_ms w; console := console w;
     tts_requests := tts_requests w |}.

Definition set_user_questions (m : gmap (list N) QuestionDoc) (w : World) : World :=
  {| currentUser := currentUser w; ai_answers := ai_answers w;
     user_questions := m; firestore_down := firestore_down w;
     now_ms := now_ms w; console := console w;
     tts_requests := tts_requests w |}.

Definition send_tts (request : jsstring) (w : World) : World :=
  {| currentUser := currentUser w; ai_answers := ai_answers w;
     user_questions := user_questions w; firestore_down := firestore_down w;
     now_ms := now_ms w; console := console w;
     tts_requests := tts_requests w ++ [request] |}.

(** Signing in or out replaces [auth.currentUser]. *)
Definition signedInAs (u : option User) (w : World) : World :=
  {| currentUser := u; ai_answers := ai_answers w;
     user_questions := user_questions w; firestore_down := firestore_down w;
     now_ms := now_ms w; console := console w;
     tts_requests := tts_requests w |}.

(** ** dbService.ts *)

Module DbService.

(** [const user = auth.currentUser; if (!user) { console.warn(...); return null; }] *)
Definition getValidUser (w : World) : option User * World :=
  match currentUser w with
  | None => (None, log (Warn "Operation skipped: No authenticated user found.") w)
  | Some user => (Some user, w)
  end.

Definition getCachedAnswer (questionId : jsstring) (w : World)
  : option CachedEntry * World :=
  match getValidUser w with
  | (None, w) => (None, w)
  | (Some _, w) =>
      if firestore_down w
      then (None, log (Error "[Firestore Error] getCachedAnswer") w)
      else (ai_answers w !! questionId, w)
  end.

Definition saveAnswerToCache (entry : CachedEntry) (w : World) : World :=
  match getValidUser w with
  | (None, w) => w
  | (Some _, w) =>
      if firestore_down w
      then log (Error "[Firestore Error] saveAnswerToCache") w
      else set_ai_answers (<[questionId entry := entry]> (ai_answers w)) w
  end.

Definition getAllCachedIds (w : World) : list jsstring * World :=
  match getValidUser w with
  | (None, w) => ([], w)
  | (Some _, w) =>
      if firestore_down w
      then ([], log (Error "[Firestore Error] getAllCachedIds") w)
      else (map fst (map_to_list (ai_answers w)), w)
  end.

(** [where("userId", "==", user.uid)], then [{ id: doc.id, ...doc.data() }]:
    the stored fields come last and win. *)
Definition getCustomQuestions (w : World) : list Question * World :=
  match getValidUser w with
  | (None, w) => ([], w)
  | (Some user, w) =>
      if firestore_down w
      then ([], log (Error "[Firestore Error] getCustomQuestions") w)
      else (map (fun kd => doc_question (snd kd))
              (List.filter (fun kd => bool_decide (userId (snd kd) = uid user))
                 (map_to_list (user_questions w))), w)
  end.

Definition saveCustomQuestion (q : Question) (w : World) : World :=
  match getValidUser w with
  | (None, w) => w
  | (Some user, w) =>
      if firestore_down w
      then log (Error "[Firestore Error] saveCustomQuestion") w
      else set_user_questions
             (<[id q := {| doc_question := q; userId := uid user;
                           createdAt := now_ms w |}]> (user_questions w)) w
  end.

Definition deleteCustomQuestion (id : jsstring) (w : World) : World :=
  match getValidUser w with
  | (None, w) => w
  | (Some _, w) =>
      if firestore_down w
      then log (Error "[Firestore Error] deleteCustomQuestion") w
      else set_user_questions (delete id (user_questions w)) w
  end.

End DbService.

(** ** geminiService.ts: [getAudioFromText] *)

Module GeminiService.

(** [.replace(/[#*`]/g, '')] *)
Definition is_markup (c : N) : bool := (c =? 35) || (c =? 42) || (c =? 96).

Definition remove_markup (t : jsstring) : jsstring :=
  List.filter (fun c => negb (is_markup c)) t.

(** [.replace(/\n\n/g, '. ')]: leftmost matches, which do not overlap. *)
Fixpoint replace_double_newlines (t : jsstring) : jsstring :=
  match t with
  | [] => []
  | c :: r =>
      match r with
      | c' :: r' =>
          if (c =? 10) && (c' =? 10) then 46 :: 32 :: replace_double_newlines r'
          else c :: replace_double_newlines r
      | [] => [c]
      end
  end.

(** [.substring(0, 1500)] *)
Definition cleanText (text : jsstring) : jsstring :=
  firstn 1500 (replace_double_newlines (remove_markup text)).

Definition prompt : jsstring :=
  js "Explain this as a friendly mentor in a podcast style: ".

(** What [ai.models.generateContent] does with a request: it rejects, or
    it answers with [candidates?.[0]?.content?.parts?.[0]?.inlineData?.data]. *)
Inductive TtsOutcome :=
| TtsRejected
| TtsResponse (data : option jsstring).

Definition getAudioFromText (tts : jsstring -> TtsOutcome)
    (qid : jsstring) (text : jsstring) (w : World)
  : option jsstring * World :=
  let (cached, w) := DbService.getCachedAnswer qid w in
  match truthy (cached ≫= audioBase64) with
  | Some audio => (Some audio, w)
  | None =>
      let request := prompt ++ cleanText text in
      let w := send_tts request w in
      match tts request with
      | TtsRejected => (None, log (Error "TTS Error:") w)
      | TtsResponse data =>
          match truthy data with
          | None => (None, log (Error "TTS Error:") w)  (* "No audio data received" *)
          | Some base64Audio =>
              match cached with
              | Some cached =>
                  (Some base64Audio,
                   DbService.saveAnswerToCache
                     {| questionId := questionId cached;
                        answer := answer cached;
                        sources := sources cached;
                        audioBase64 := Some base64Audio;
                        timestamp := timestamp cached |} w)
              | None => (Some base64Audio, w)
              end
          end
      end
  end.

Definition starts_with_newline (t : jsstring) : bool :=
  match t with
  | c :: _ => c =? 10
  | [] => false
  end.

Definition has_double_newline (t : jsstring) : bool :=
  existsb (fun p => (fst p =? 10) && (snd p =? 10)) (combine t (tl t)).

End GeminiService.

(** ** [decodeAudioData] (App.tsx and VoiceAssistant.tsx, the same text)

    The payload is 16-bit little-endian mono PCM.  [new Int16Array(data.buffer)]
    throws a [RangeError] on an odd byte length and [ctx.createBuffer] a
    [NotSupportedError] on zero frames; inside the [async] function either
    one rejects the promise ([None]).  A sample [v] stands for the channel
    value [v / 32768.0]. *)

Record AudioBuffer := { channelData : list Z }.

Definition int16 (lo hi : byte) : Z :=
  let v := (Z.of_N (Byte.to_N lo) + 256 * Z.of_N (Byte.to_N hi))%Z in
  if (v <? 32768)%Z then v else (v - 65536)%Z.

Fixpoint int16_samples (data : list byte) : list Z :=
  match data with
  | lo :: hi :: rest => int16 lo hi :: int16_samples rest
  | _ => []
  end.

Definition decodeAudioData (data : list byte) : option AudioBuffer :=
  if Nat.even (length data) && negb (length data =? 0)%nat
  then Some {| channelData := int16_samples data |}
  else None.

(** [buffer.duration], in sample frames. *)
Definition duration (buffer : AudioBuffer) : Z :=
  Z.of_nat (length (channelData buffer)).

(** ** App.tsx: the clip player

    [playAudio] is [async]: a call runs up to [await getAudioFromText(...)]
    and is resumed when the fetch settles, runs up to
    [await decodeAudioData(...)] and is resumed again.  Each suspended call
    is a [Invocation] holding the [questionId] it captured; the events of the
    player are the calls, the resumptions, [stopAudio] and the [ended]
    event of a source. *)

Module App.

Record SourceNode := {
  owner : jsstring;        (* the questionId its onended handler captured *)
  buffer : AudioBuffer;
  stopped : bool           (* stop() has been called on it *)
}.

Inductive Invocation :=
| AwaitFetch (questionId : jsstring)
| AwaitDecode (questionId : jsstring) (decoded : option AudioBuffer)
| Settled.

Record Player := {
  audioContextRef : bool;                      (* the context exists *)
  audioSourceRef : option nat;
  activeAudioQuestionIdRef : option jsstring;
  isPlaying : bool;
  isAudioLoading : bool;
  nodes : list SourceNode;                     (* sources started so far *)
  pending : list Invocation;
  console : list LogEntry
}.

Definition initial : Player :=
  {| audioContextRef := false; audioSourceRef := None;
     activeAudioQuestionIdRef := None; isPlaying := false;
     isAudioLoading := false; nodes := []; pending := []; console := [] |}.

(** [source.stop()]; the call sits in a [try] with an empty [catch]. *)
Definition stop_node (n : nat) (ns : list SourceNode) : list SourceNode :=
  match ns !! n with
  | Some node =>
      <[n := {| owner := owner node; buffer := buffer node; stopped := true |}]> ns
  | None => ns
  end.

Definition stopAudio (s : Player) : Player :=
  {| audioContextRef := audioContextRef s;
     audioSourceRef := None;
     activeAudioQuestionIdRef := None;
     isPlaying := false;
     isAudioLoading := isAudioLoading s;
     nodes := match audioSourceRef s with
              | Some n => stop_node n (nodes s)
              | None => nodes s
              end;
     pending := pending s;
     console := console s |}.

(** [playAudio] up to its first [await]. *)
Definition playAudio (questionId text : jsstring) (s : Player) : Player :=
  let s := stopAudio s in
  {| audioContextRef := audioContextRef s;
     audioSourceRef := audioSourceRef s;
     activeAudioQuestionIdRef := Some questionId;
     isPlaying := isPlaying s;
     isAudioLoading := true;
     nodes := nodes s;
     pending := pending s ++ [AwaitFetch questionId];
     console := console s |}.

Definition is_active (questionId : jsstring) (s : Player) : bool :=
  bool_decide (activeAudioQuestionIdRef s = Some questionId).

Definition set_invocation (k : nat) (t : Invocation) (s : Player) : Player :=
  {| audioContextRef := audioContextRef s; audioSourceRef := audioSourceRef s;
     activeAudioQuestionIdRef := activeAudioQuestionIdRef s;
     isPlaying := isPlaying s; isAudioLoading := isAudioLoading s;
     nodes := nodes s; pending := <[k := t]> (pending s); console := console s |}.

(** [catch (err) { console.error("Failed to play audio:", err); }] *)
Definition catch (s : Player) : Player :=
  {| audioContextRef := audioContextRef s; audioSourceRef := audioSourceRef s;
     activeAudioQuestionIdRef := activeAudioQuestionIdRef s;
     isPlaying := isPlaying s; isAudioLoading := isAudioLoading s;
     nodes := nodes s; pending := pending s;
     console := console s ++ [Error "Failed to play audio:"] |}.

(** [finally { if (activeAudioQuestionIdRef.current === questionId) setIsAudioLoading(false); }] *)
Definition finally (questionId : jsstring) (s : Player) : Player :=
  {| audioContextRef := audioContextRef s; audioSourceRef := audioSourceRef s;
     activeAudioQuestionIdRef := activeAudioQuestionIdRef s;
     isPlaying := isPlaying s;
     isAudioLoading := if is_active questionId s then false else isAudioLoading s;
     nodes := nodes s; pending := pending s; console := console s |}.

Definition create_context (s : Player) : Player :=
  {| audioContextRef := true; audioSourceRef := audioSourceRef s;
     activeAudioQuestionIdRef := activeAudioQuestionIdRef s;
     isPlaying := isPlaying s; isAudioLoading := isAudioLoading s;
     nodes := nodes s; pending := pending s; console := console s |}.

(** The call resumes after [await getAudioFromText(questionId, text)];
    [fetched] is [None] when the fetch rejected. *)
Definition fetch_settled (k : nat) (fetched : option jsstring) (s : Player) : Player :=
  match pending s !! k with
  | Some (AwaitFetch questionId) =>
      match fetched with
      | None => finally questionId (catch (set_invocation k Settled s))
      | Some base64Audio =>
          if negb (is_active questionId s)
          then finally questionId (set_invocation k Settled s)
          else
            let s := create_context s in
            match decode base64Audio with
            | None => finally questionId (catch (set_invocation k Settled s))
            | Some data => set_invocation k (AwaitDecode questionId (decodeAudioData data)) s
            end
      end
  | _ => s
  end.

(** [source.start(0)] on a fresh source held by [audioSourceRef]. *)
Definition start_source (questionId : jsstring) (audioBuffer : AudioBuffer)
    (s : Player) : Player :=
  {| audioContextRef := audioContextRef s;
     audioSourceRef := Some (length (nodes s));
     activeAudioQuestionIdRef := activeAudioQuestionIdRef s;
     isPlaying := true;
     isAudioLoading := isAudioLoading s;
     nodes := nodes s ++ [{| owner := questionId; buffer := audioBuffer;
                             stopped := false |}];
     pending := pending s;
     console := console s |}.

(** The call resumes after [await decodeAudioData(...)]. *)
Definition decode_settled (k : nat) (s : Player) : Player :=
  match pending s !! k with
  | Some (AwaitDecode questionId decoded) =>
      match decoded with
      | None => finally questionId (catch (set_invocation k Settled s))
      | Some audioBuffer =>
          if negb (is_active questionId s)
          then finally questionId (set_invocation k Settled s)
          else finally questionId (start_source questionId audioBuffer (set_invocation k Settled s))
      end
  | _ => s
  end.

(** [source.onended = () => { if (active === questionId) setIsPlaying(false); }] *)
Definition ended (n : nat) (s : Player) : Player :=
  match nodes s !! n with
  | Some node =>
      {| audioContextRef := audioContextRef s; audioSourceRef := audioSourceRef s;
         activeAudioQuestionIdRef := activeAudioQuestionIdRef s;
         isPlaying := if is_active (owner node) s then false else isPlaying s;
         isAudioLoading := isAudioLoading s;
         nodes := nodes s; pending := pending s; console := console s |}
  | None => s
  end.

Inductive Event :=
| PlayAudio (questionId text : jsstring)
| FetchSettled (call : nat) (fetched : option jsstring)
| DecodeSettled (call : nat)
| StopAudio
| Ended (node : nat).

Definition step (e : Event) (s : Player) : Player :=
  match e with
  | PlayAudio questionId text => playAudio questionId text s
  | FetchSettled k fetched => fetch_settled k fetched s
  | DecodeSettled k => decode_settled k s
  | StopAudio => stopAudio s
  | Ended n => ended n s
  end.

Definition run (es : list Event) (s : Player) : Player :=
  fold_left (fun s e => step e s) es s.

(** A call [playAudio(id, text)]. *)
Definition play (call : jsstring * jsstring) : Event :=
  PlayAudio (fst call) (snd call).

(** A resumption or an [ended] event: neither a call of [playAudio] nor of
    [stopAudio]. *)
Definition is_completion (e : Event) : bool :=
  match e with
  | FetchSettled _ _ | DecodeSettled _ | Ended _ => true
  | PlayAudio _ _ | StopAudio => false
  end.

End App.

(** ** VoiceAssistant.tsx: the live session controller

    Time is [outputCtx.currentTime] in sample frames.  One invocation of a
    callback is one step: [decodeAudioData] never suspends, so the
    continuation of [onmessage] after its [await] is the next microtask.
    [startSession] is one step as well, taken with how far it gets: it
    writes to the component only before its first [await]
    ([audioContextRef]) and after its last ([sessionRef], [isActive]). *)

Module VoiceAssistant.

(** The part of [LiveServerMessage] the callback reads. *)
Record Blob := { data : option jsstring }.
Record Part := { inlineData : option Blob }.
Record Content := { parts : option (list Part) }.
Record LiveServerContent := { modelTurn : option Content; interrupted : option bool }.
Record LiveServerMessage := { serverContent : option LiveServerContent }.

Record SourceNode := {
  startAt : Z;             (* the [when] of [sourceNode.start(when)] *)
  buffer : AudioBuffer;
  stopped : bool           (* stop() has been called on it *)
}.

Record Assistant := {
  isActive : bool;
  sessionRef : option nat;
  audioContextRef : option nat;
  nextStartTimeRef : Z;
  sourcesRef : gset nat;
  graph : list SourceNode;       (* every source this component started *)
  contexts : nat;                (* AudioContexts created so far *)
  closed : list nat;             (* sessions on which close() was called *)
  console : list LogEntry
}.

Definition initial : Assistant :=
  {| isActive := false; sessionRef := None; audioContextRef := None;
     nextStartTimeRef := 0; sourcesRef := ∅; graph := []; contexts := 0;
     closed := []; console := [] |}.

Inductive Phase := Idle | Connecting | Active.

(** The component only records whether a session is active. *)
Definition phase (s : Assistant) : Phase :=
  if isActive s then Active else Idle.

Definition stop_node (node : SourceNode) : SourceNode :=
  {| startAt := startAt node; buffer := buffer node; stopped := true |}.

(** [sourcesRef.current.forEach(source => { try { source.stop(); } catch (e) {} })] *)
Definition stop_all (sources : gset nat) (g : list SourceNode) : list SourceNode :=
  imap (fun i node => if bool_decide (i ∈ sources) then stop_node node else node) g.

Definition stopSession (s : Assistant) : Assistant :=
  {| isActive := false;
     sessionRef := None;
     audioContextRef := audioContextRef s;
     nextStartTimeRef := 0;
     sourcesRef := ∅;
     graph := stop_all (sourcesRef s) (graph s);
     contexts := contexts s;
     closed := match sessionRef s with
               | Some session => closed s ++ [session]
               | None => closed s
               end;
     console := console s |}.

(** How far [startSession] gets. *)
Inductive StartOutcome :=
| GenAIThrows            (* new GoogleGenAI(...) *)
| InputContextThrows     (* new AudioContext({ sampleRate: 16000 }) *)
| OutputContextThrows    (* new AudioContext({ sampleRate: 24000 }) *)
| UserMediaRejects       (* await navigator.mediaDevices.getUserMedia(...) *)
| ConnectRejects         (* await sessionPromise *)
| Connected (session : nat).

Definition failed (o : StartOutcome) : bool :=
  match o with
  | Connected _ => false
  | _ => true
  end.

Definition new_contexts (k : nat) (outputCtx : option nat) (s : Assistant) : Assistant :=
  {| isActive := isActive s; sessionRef := sessionRef s;
     audioContextRef := match outputCtx with
                        | Some c => Some c
                        | None => audioContextRef s
                        end;
     nextStartTimeRef := nextStartTimeRef s; sourcesRef := sourcesRef s;
     graph := graph s; contexts := contexts s + k; closed := closed s;
     console := console s |}.

(** [catch (err) { console.error("Failed to start voice assistant:", err); }] *)
Definition catch (s : Assistant) : Assistant :=
  {| isActive := isActive s; sessionRef := sessionRef s;
     audioContextRef := audioContextRef s;
     nextStartTimeRef := nextStartTimeRef s; sourcesRef := sourcesRef s;
     graph := graph s; contexts := contexts s; closed := closed s;
     console := console s ++ [Error "Failed to start voice assistant:"] |}.

(** [sessionRef.current = await sessionPromise; setIsActive(true);] *)
Definition connected (session : nat) (s : Assistant) : Assistant :=
  {| isActive := true; sessionRef := Some session;
     audioContextRef := audioContextRef s;
     nextStartTimeRef := nextStartTimeRef s; sourcesRef := sourcesRef s;
     graph := graph s; contexts := contexts s; closed := closed s;
     console := console s |}.

(** The input context is number [contexts s], the output context the next
    one; [audioContextRef.current = outputCtx] comes before the first
    [await]. *)
Definition startSession (o : StartOutcome) (s : Assistant) : Assistant :=
  match o with
  | GenAIThrows | InputContextThrows => catch s
  | OutputContextThrows => catch (new_contexts 1 None s)
  | UserMediaRejects | ConnectRejects =>
      catch (new_contexts 2 (Some (contexts s + 1)%nat) s)
  | Connected session =>
      connected session (new_contexts 2 (Some (contexts s + 1)%nat) s)
  end.

(** [msg.serverContent?.modelTurn?.parts[0]?.inlineData?.data]; reading
    [parts[0]] of a model turn without [parts] is a [TypeError] ([None]). *)
Definition base64Audio (msg : LiveServerMessage) : option (option jsstring) :=
  match serverContent msg ≫= modelTurn with
  | None => Some None
  | Some turn =>
      match parts turn with
      | None => None
      | Some ps => Some ((head ps ≫= inlineData) ≫= data)
      end
  end.

(** [msg.serverContent?.interrupted] as a condition. *)
Definition is_interrupted (msg : LiveServerMessage) : bool :=
  match serverContent msg ≫= interrupted with
  | Some true => true
  | _ => false
  end.

(** [nextStartTimeRef.current = Math.max(nextStartTimeRef.current, outputCtx.currentTime)] *)
Definition clock_max (currentTime : Z) (s : Assistant) : Assistant :=
  {| isActive := isActive s; sessionRef := sessionRef s;
     audioContextRef := audioContextRef s;
     nextStartTimeRef := Z.max (nextStartTimeRef s) currentTime;
     sourcesRef := sourcesRef s; graph := graph s; contexts := contexts s;
     closed := closed s; console := console s |}.

(** [sourceNode.start(nextStartTimeRef.current);
     nextStartTimeRef.current += buffer.duration;
     sourcesRef.current.add(sourceNode);] *)
Definition schedule (audioBuffer : AudioBuffer) (s : Assistant) : Assistant :=
  {| isActive := isActive s; sessionRef := sessionRef s;
     audioContextRef := audioContextRef s;
     nextStartTimeRef := (nextStartTimeRef s + duration audioBuffer)%Z;
     sourcesRef := {[ length (graph s) ]} ∪ sourcesRef s;
     graph := graph s ++ [{| startAt := nextStartTimeRef s; buffer := audioBuffer;
                             stopped := false |}];
     contexts := contexts s; closed := closed s; console := console s |}.

(** The body of [if (msg.serverContent?.interrupted) { ... }]. *)
Definition interrupt (s : Assistant) : Assistant :=
  {| isActive := isActive s; sessionRef := sessionRef s;
     audioContextRef := audioContextRef s;
     nextStartTimeRef := 0;
     sourcesRef := ∅;
     graph := stop_all (sourcesRef s) (graph s);
     contexts := contexts s; closed := closed s; console := console s |}.

Inductive Outcome := Returned | Threw.

(** The first [if] of [onmessage]. *)
Definition audio_part (currentTime : Z) (msg : LiveServerMessage) (s : Assistant)
  : Assistant * Outcome :=
  match base64Audio msg with
  | None => (s, Threw)
  | Some audio =>
      match truthy audio with
      | None => (s, Returned)
      | Some base64 =>
          let s := clock_max currentTime s in
          match decode base64 ≫= decodeAudioData with
          | None => (s, Threw)
          | Some audioBuffer => (schedule audioBuffer s, Returned)
          end
      end
  end.

Definition onmessage (currentTime : Z) (msg : LiveServerMessage) (s : Assistant)
  : Assistant * Outcome :=
  match audio_part currentTime msg s with
  | (s, Threw) => (s, Threw)
  | (s, Returned) => (if is_interrupted msg then interrupt s else s, Returned)
  end.

(** [onclose: () => setIsActive(false)] *)
Definition onclose (s : Assistant) : Assistant :=
  {| isActive := false; sessionRef := sessionRef s;
     audioContextRef := audioContextRef s;
     nextStartTimeRef := nextStartTimeRef s; sourcesRef := sourcesRef s;
     graph := graph s; contexts := contexts s; closed := closed s;
     console := console s |}.

(** [onerror: (e) => console.error("Live Error:", e)] *)
Definition onerror (s : Assistant) : Assistant :=
  {| isActive := isActive s; sessionRef := sessionRef s;
     audioContextRef := audioContextRef s;
     nextStartTimeRef := nextStartTimeRef s; sourcesRef := sourcesRef s;
     graph := graph s; contexts := contexts s; closed := closed s;
     console := console s ++ [Error "Live Error:"] |}.

(** [sourceNode.addEventListener('ended', () => sourcesRef.current.delete(sourceNode))] *)
Definition ended (n : nat) (s : Assistant) : Assistant :=
  {| isActive := isActive s; sessionRef := sessionRef s;
     audioContextRef := audioContextRef s;
     nextStartTimeRef := nextStartTimeRef s; sourcesRef := sourcesRef s ∖ {[ n ]};
     graph := graph s; contexts := contexts s; closed := closed s;
     console := console s |}.

(** [onClick={isActive ? stopSession : startSession}] *)
Inductive Event :=
| Click (o : StartOutcome)
| Message (currentTime : Z) (msg : LiveServerMessage)
| Close
| LiveError
| Ended (n : nat).

Definition step (e : Event) (s : Assistant) : Assistant :=
  match e with
  | Click o => if isActive s then stopSession s else startSession o s
  | Message currentTime msg => fst (onmessage currentTime msg s)
  | Close => onclose s
  | LiveError => onerror s
  | Ended n => ended n s
  end.

Definition run (es : list Event) (s : Assistant) : Assistant :=
  fold_left (fun s e => step e s) es s.


(** What a message carries for the first [if]: nothing, a decoded chunk, or
    a payload on which the callback throws. *)
Inductive Payload :=
| NoAudio
| Audio (audioBuffer : AudioBuffer)
| Malformed.

Definition payload (msg : LiveServerMessage) : Payload :=
  match base64Audio msg with
  | None => Malformed
  | Some audio =>
      match truthy audio with
      | None => NoAudio
      | Some base64 =>
          match decode base64 ≫= decodeAudioData with
          | Some audioBuffer => Audio audioBuffer
          | None => Malformed
          end
      end
  end.

(** A chunk message: decodable audio and no interruption flag. *)
Definition carries (msg : LiveServerMessage) (audioBuffer : AudioBuffer) : Prop :=
  payload msg = Audio audioBuffer /\ is_interrupted msg = false.

(** Sources started back to back from time [t] on. *)
Fixpoint plan (t : Z) (buffers : list AudioBuffer) : list SourceNode :=
  match buffers with
  | [] => []
  | b :: rest =>
      {| startAt := t; buffer := b; stopped := false |}
        :: plan (t + duration b) rest
  end.

(** The summed duration of some buffers. *)
Definition total (buffers : list AudioBuffer) : Z :=
  fold_right (fun b acc => (duration b + acc)%Z) 0%Z buffers.






(** A message with an audio part of [frames] silent sample frames. *)
Definition audio_message (frames : nat) (interrupt : option bool) : LiveServerMessage :=
  {| serverContent := Some
       {| modelTurn := Some
            {| parts := Some
                 [{| inlineData := Some
                       {| data := encode (repeat x00 (2 * frames)) |} |}] |};
          interrupted := interrupt |} |}.

Definition interrupted_message : LiveServerMessage :=
  {| serverContent := Some {| modelTurn := None; interrupted := Some true |} |}.

Definition silence (frames : nat) : AudioBuffer :=
  {| channelData := repeat 0%Z frames |}.

End VoiceAssistant.

(** ** Sample data *)

Definition alice : User := {| uid := js "alice"; emailVerified := true |}.
Definition bob : User := {| uid := js "bob"; emailVerified := true |}.
Definition unverified : User := {| uid := js "carol"; emailVerified := false |}.

Definition entry_q1 : CachedEntry :=
  {| questionId := js "q1"; answer := js "Signals are reactive values.";
     sources := []; audioBase64 := None; timestamp := 1700000000000 |}.

Definition entry_q1' : CachedEntry :=
  {| questionId := js "q1"; answer := js "Overwritten.";
     sources := []; audioBase64 := Some (js "QUJD"); timestamp := 1700000000001 |}.

Definition empty_world : World :=
  {| currentUser := None; ai_answers := ∅; user_questions := ∅;
     firestore_down := false; now_ms := 1700000000000; console := [];
     tts_requests := [] |}.


(** ** Further properties of the cache layer: auxiliary notions *)

(** Every custom question is stored under its own [id], as
    [saveCustomQuestion] writes it. *)
Definition well_keyed (w : World) : Prop :=
  forall k d, user_questions w !! k = Some d -> id (doc_question d) = k.

(** The operations of dbService.ts, as a user of the module calls them. *)
Inductive DbCall :=
| GetCachedAnswer (questionId : jsstring)
| SaveAnswerToCache (entry : CachedEntry)
| GetAllCachedIds
| GetCustomQuestions
| SaveCustomQuestion (q : Question)
| DeleteCustomQuestion (id : jsstring)
| SignIn (u : option User).

Definition db_call (c : DbCall) (w : World) : World :=
  match c with
  | GetCachedAnswer q => snd (DbService.getCachedAnswer q w)
  | SaveAnswerToCache e => DbService.saveAnswerToCache e w
  | GetAllCachedIds => snd (DbService.getAllCachedIds w)
  | GetCustomQuestions => snd (DbService.getCustomQuestions w)
  | SaveCustomQuestion q => DbService.saveCustomQuestion q w
  | DeleteCustomQuestion i => DbService.deleteCustomQuestion i w
  | SignIn u => signedInAs u w
  end.

Definition db_calls (cs : list DbCall) (w : World) : World :=
  fold_left (fun w c => db_call c w) cs w.

Definition question_signals : Question :=
  {| id := js "custom-1700000000000"; text := js "How do signals work?";
     category := js "Advanced & Coding"; isCustom := Some true |}.

(** ** geminiService.ts: [getAnswerFromAI] *)

Module AI.

(** [interface AIResponse] (types.ts) *)
Record AIResponse := { answer : jsstring; sources : list GroundingChunk }.

(** What the function reads of a [GenerateContentResponse]: [response.text]
    and [response.candidates?.[0]?.groundingMetadata?.groundingChunks]. *)
Record GenerateContentResponse := {
  text : option jsstring;
  groundingChunks : option (list GroundingChunk)
}.

(** [ai.models.generateContent] rejects or answers. *)
Inductive Outcome :=
| Rejected
| Responded (response : GenerateContentResponse).

End AI.

Module GeminiAnswer.

Definition fallback : jsstring :=
  js "I'm sorry, I couldn't generate an answer at this moment.".

(** [s => s.web] *)
Definition has_web (s : GroundingChunk) : bool :=
  match web s with
  | Some _ => true
  | None => false
  end.

(** The result, the world afterwards and the requests sent to the model;
    [None] is the rejection with "Failed to fetch answer from AI mentor.". *)
Definition getAnswerFromAI (ai : jsstring -> AI.Outcome)
    (qid : jsstring) (questionText : jsstring) (w : World)
  : option AI.AIResponse * World * list jsstring :=
  let (cached, w) := DbService.getCachedAnswer qid w in
  match cached with
  | Some cached =>
      (Some {| AI.answer := answer cached; AI.sources := sources cached |}, w, [])
  | None =>
      let request := js "Question: " ++ questionText in
      match ai request with
      | AI.Rejected => (None, log (Error "Gemini API Error:") w, [request])
      | AI.Responded response =>
          let text := match truthy (AI.text response) with
                      | Some t => t
                      | None => fallback
                      end in
          let srcs := match AI.groundingChunks response with
                      | Some chunks => chunks
                      | None => []
                      end in
          let result := {| AI.answer := text; AI.sources := List.filter has_web srcs |} in
          (Some result,
           DbService.saveAnswerToCache
             {| answer := AI.answer result; sources := AI.sources result;
                questionId := qid; audioBase64 := None; timestamp := now_ms w |} w,
           [request])
      end
  end.

End GeminiAnswer.

Definition angular_tts (request : jsstring) : GeminiService.TtsOutcome :=
  GeminiService.TtsResponse (Some (js "AAAAAA==")).

Definition angular_ai (request : jsstring) : AI.Outcome :=
  AI.Responded {| AI.text := Some (js "## Signals"); AI.groundingChunks := None |}.

(** Alice signed in, one cached answer without audio. *)
Definition world_q1 : World :=
  set_ai_answers {[ js "q1" := entry_q1 ]} (signedInAs (Some alice) empty_world).

(** ** Further properties of the players: auxiliary notions *)

(** What the clip player's refs and flags say about its sources. *)
Definition player_consistent (s : App.Player) : Prop :=
  (forall n, App.audioSourceRef s = Some n ->
     exists node, App.nodes s !! n = Some node /\ App.stopped node = false
                  /\ App.activeAudioQuestionIdRef s = Some (App.owner node))
  /\ (App.isPlaying s = true -> is_Some (App.audioSourceRef s))
  /\ (App.nodes s <> [] -> App.audioContextRef s = true)
  /\ (forall k q decoded,
        App.pending s !! k = Some (App.AwaitDecode q decoded) ->
        App.audioContextRef s = true).

(** What the session controller's set says about its sources, and where
    its timeline is. *)
Definition session_consistent (s : VoiceAssistant.Assistant) : Prop :=
  (forall n, n ∈ VoiceAssistant.sourcesRef s ->
     exists node, VoiceAssistant.graph s !! n = Some node
                  /\ VoiceAssistant.stopped node = false)
  /\ (0 <= VoiceAssistant.nextStartTimeRef s)%Z
  /\ Forall (fun node => (0 <= VoiceAssistant.startAt node)%Z) (VoiceAssistant.graph s).

(** ** VoiceAssistant.tsx: [scriptProcessor.onaudioprocess]

    A sample of the input buffer is a Float32 value: NaN, an infinity, or
    [m * 2^e].  Its product with 32768 is exact in double precision;
    storing it into the [Int16Array] applies ToInt16 (truncate toward zero,
    reduce modulo 2^16, read as signed; NaN and the infinities give 0).
    [new Uint8Array(int16.buffer)] views each sample as two bytes, low byte
    first. *)

Module Microphone.

Inductive Float32 :=
| NaN
| Infinity (negative : bool)
| Finite (m e : Z).

(** [inputData[i] * 32768], truncated toward zero. *)
Definition scaled (x : Float32) : Z :=
  match x with
  | Finite m e =>
      if (0 <=? e + 15)%Z then (m * 2 ^ (e + 15))%Z
      else Z.quot m (2 ^ (- (e + 15)))
  | _ => 0%Z
  end.

Definition ToInt16 (n : Z) : Z :=
  let r := (n mod 65536)%Z in
  if (r <? 32768)%Z then r else (r - 65536)%Z.

(** [int16[i] = inputData[i] * 32768] *)
Definition quantize (x : Float32) : Z := ToInt16 (scaled x).

Definition int16_bytes (v : Z) : list byte :=
  let u := Z.to_N (v mod 65536) in
  [u8 (u mod 256); u8 (u / 256)].

(** The [data] of the blob handed to [session.sendRealtimeInput], or
    [None] when the callback returns at [if (!sessionRef.current) return]. *)
Definition onaudioprocess (s : VoiceAssistant.Assistant) (inputData : list Float32)
  : option jsstring :=
  match VoiceAssistant.sessionRef s with
  | None => None
  | Some _ => encode (flat_map int16_bytes (map quantize inputData))
  end.

End Microphone.

(** ** App.tsx: the question modal ([handleQuestionClick], [handleCloseModal])

    [handleQuestionClick] is [async]: a click runs up to
    [await getAnswerFromAI(...)] and the call is resumed when the answer
    settles.  The answer is the environment's ([None]: the rejection, whose
    message is "Failed to fetch answer from AI mentor."). *)

Module Modal.

Inductive AnswerCall :=
| AwaitAnswer (question : Question)
| AnswerDone.

Record Ui := {
  selectedQuestion : option Question;
  aiResponse : option AI.AIResponse;
  isLoading : bool;
  error : option jsstring;
  syncedIds : gset (list N);
  player : App.Player;           (* the refs and flags of the clip player *)
  answers : list AnswerCall      (* suspended calls of handleQuestionClick *)
}.

(** [handleQuestionClick] up to its [await]. *)
Definition handleQuestionClick (question : Question) (s : Ui) : Ui :=
  {| selectedQuestion := Some question;
     aiResponse := None;
     isLoading := true;
     error := None;
     syncedIds := syncedIds s;
     player := App.stopAudio (player s);
     answers := answers s ++ [AwaitAnswer question] |}.

(** The rest of [handleQuestionClick], with its [catch] and [finally]. *)
Definition answer_settled (k : nat) (result : option AI.AIResponse) (s : Ui) : Ui :=
  match answers s !! k with
  | Some (AwaitAnswer question) =>
      match result with
      | Some result =>
          {| selectedQuestion := selectedQuestion s;
             aiResponse := Some result;
             isLoading := false;
             error := error s;
             syncedIds := {[ id question ]} ∪ syncedIds s;
             player := App.playAudio (id question) (AI.answer result) (player s);
             answers := <[k := AnswerDone]> (answers s) |}
      | None =>
          {| selectedQuestion := selectedQuestion s;
             aiResponse := aiResponse s;
             isLoading := false;
             error := Some (js "Failed to fetch answer from AI mentor.");
             syncedIds := syncedIds s;
             player := player s;
             answers := <[k := AnswerDone]> (answers s) |}
      end
  | _ => s
  end.

Definition handleCloseModal (s : Ui) : Ui :=
  {| selectedQuestion := None;
     aiResponse := aiResponse s;
     isLoading := isLoading s;
     error := error s;
     syncedIds := syncedIds s;
     player := App.stopAudio (player s);
     answers := answers s |}.

Definition player_event (e : App.Event) (s : Ui) : Ui :=
  {| selectedQuestion := selectedQuestion s;
     aiResponse := aiResponse s;
     isLoading := isLoading s;
     error := error s;
     syncedIds := syncedIds s;
     player := App.step e (player s);
     answers := answers s |}.

Inductive Event :=
| QuestionClick (question : Question)
| AnswerSettled (call : nat) (result : option AI.AIResponse)
| CloseModal
| Player (e : App.Event).

Definition step (e : Event) (s : Ui) : Ui :=
  match e with
  | QuestionClick question => handleQuestionClick question s
  | AnswerSettled k result => answer_settled k result s
  | CloseModal => handleCloseModal s
  | Player e => player_event e s
  end.

Definition run (es : list Event) (s : Ui) : Ui :=
  fold_left (fun s e => step e s) es s.

Definition initial : Ui :=
  {| selectedQuestion := None; aiResponse := None; isLoading := false;
     error := None; syncedIds := ∅; player := App.initial; answers := [] |}.

End Modal.

Definition answer_signals : AI.AIResponse :=
  {| AI.answer := js "Signals are reactive values."; AI.sources := [] |}.

(** * Properties *)

(** ** Base64 *)

Ltac nlia := zify; Z.to_euclidean_division_equations; lia.

Lemma list_ind3 {A} (P : list A -> Prop) :
  P [] -> (forall x, P [x]) -> (forall x y, P [x; y]) ->
  (forall x y z r, P r -> P (x :: y :: z :: r)) ->
  forall l, P l.
Proof.
  intros H0 H1 H2 H3.
  assert (H : forall l, P l /\ (forall x, P (x :: l)) /\ (forall x y, P (x :: y :: l))).
  { induction l as [|a l (Ha & Hb & Hc)]; repeat split; auto. }
  intros l. apply H.
Qed.

Example decode_QR : decode (js "QR==") = Some [x41].
Proof. reflexivity. Qed.

Example encode_A : encode [x41] = Some (js "QQ==").
Proof. reflexivity. Qed.

Example decode_hello : decode (js "aGVsbG8=") = Some [x68; x65; x6c; x6c; x6f].
Proof. reflexivity. Qed.

Example encode_hello : encode [x68; x65; x6c; x6c; x6f] = Some (js "aGVsbG8=").
Proof. reflexivity. Qed.

Example decode_unpadded : decode (js "QQ") = Some [x41].
Proof. reflexivity. Qed.

Example decode_bad : decode (js "Q") = None /\ decode (js "Q!==") = None.
Proof. split; reflexivity. Qed.

Lemma u8_to_N (b : byte) : u8 (Byte.to_N b) = b.
Proof.
  unfold u8. pose proof (Byte.to_N_bounded b) as Hb.
  rewrite N.mod_small by lia. now rewrite Byte.of_to_N.
Qed.

Lemma to_N_u8 (n : N) : n < 256 -> Byte.to_N (u8 n) = n.
Proof.
  intros Hn. unfold u8. rewrite N.mod_small by lia.
  destruct (Byte.of_N n) as [b|] eqn:E.
  - now apply Byte.to_of_N.
  - apply Byte.of_N_None_iff in E. lia.
Qed.

Ltac bool_hyps :=
  repeat match goal with
         | H : (_ && _) = true |- _ => apply andb_true_iff in H; destruct H
         | H : (_ && _) = false |- _ => apply andb_false_iff in H; destruct H
         | H : (_ || _) = false |- _ => apply orb_false_iff in H; destruct H
         | H : (_ <=? _) = true |- _ => apply N.leb_le in H
         | H : (_ <=? _) = false |- _ => apply N.leb_gt in H
         | H : (_ <? _) = true |- _ => apply N.ltb_lt in H
         | H : (_ <? _) = false |- _ => apply N.ltb_ge in H
         | H : (_ =? _) = true |- _ => apply N.eqb_eq in H
         | H : (_ =? _) = false |- _ => apply N.eqb_neq in H
         end.

Ltac split_ifs :=
  repeat match goal with
         | |- context [if ?b then _ else _] => destruct b eqn:?
         end.

Lemma b64_index_char (i : N) : i < 64 -> Host.b64_index (Host.b64_char i) = Some i.
Proof.
  intros Hi. unfold Host.b64_char.
  split_ifs; bool_hyps; unfold Host.b64_index; split_ifs; bool_hyps;
    try lia; f_equal; lia.
Qed.

Lemma b64_char_index (c i : N) :
  Host.b64_index c = Some i -> Host.b64_char i = c /\ i < 64.
Proof.
  unfold Host.b64_index. intros H.
  repeat match type of H with
         | context [if ?b then _ else _] => destruct b eqn:?
         end; inversion H; subst; clear H;
  unfold Host.b64_char; split_ifs; bool_hyps; lia.
Qed.

Lemma b64_char_not_pad (i : N) : Host.b64_char i <> Host.pad.
Proof. unfold Host.b64_char, Host.pad. split_ifs; bool_hyps; lia. Qed.

Lemma b64_char_not_ws (i : N) : Host.is_ascii_whitespace (Host.b64_char i) = false.
Proof.
  unfold Host.b64_char, Host.is_ascii_whitespace.
  split_ifs; bool_hyps;
    repeat (apply orb_false_iff; split); apply N.eqb_neq; lia.
Qed.

Lemma bytes_to_sextets_bound (bs : list N) :
  Forall (fun x => x < 256) bs -> Forall (fun x => x < 64) (Host.bytes_to_sextets bs).
Proof.
  induction bs as [|x|x y|x y z r IH] using list_ind3; intros H; simpl.
  - constructor.
  - inversion_clear H. repeat constructor; nlia.
  - inversion_clear H as [|? ? Hx H']. inversion_clear H'.
    repeat constructor; nlia.
  - inversion_clear H as [|? ? Hx H']. inversion_clear H' as [|? ? Hy H''].
    inversion_clear H'' as [|? ? Hz Hr].
    repeat (constructor; [nlia|]). auto.
Qed.

Lemma sextets_roundtrip (bs : list N) :
  Forall (fun x => x < 256) bs ->
  Host.sextets_to_bytes (Host.bytes_to_sextets bs) = bs.
Proof.
  induction bs as [|x|x y|x y z r IH] using list_ind3; intros H; simpl.
  - reflexivity.
  - inversion_clear H. f_equal. nlia.
  - inversion_clear H as [|? ? Hx H']. inversion_clear H'.
    f_equal; [nlia|]. f_equal. nlia.
  - inversion_clear H as [|? ? Hx H']. inversion_clear H' as [|? ? Hy H''].
    inversion_clear H'' as [|? ? Hz Hr].
    rewrite IH by assumption.
    f_equal; [nlia|]. f_equal; [nlia|]. f_equal. nlia.
Qed.

Lemma indices_map_char (xs : list N) :
  Forall (fun x => x < 64) xs -> Host.indices (map Host.b64_char xs) = Some xs.
Proof.
  induction 1 as [|x xs Hx _ IH]; simpl; [reflexivity|].
  now rewrite b64_index_char, IH.
Qed.

Lemma filter_ws_map_char (xs : list N) :
  List.filter (fun c => negb (Host.is_ascii_whitespace c)) (map Host.b64_char xs)
  = map Host.b64_char xs.
Proof.
  induction xs as [|x xs IH]; simpl; [reflexivity|].
  now rewrite b64_char_not_ws, IH.
Qed.

Lemma drop_last_pad_snoc (d : jsstring) (c : N) :
  Host.drop_last_pad (d ++ [c]) = if c =? Host.pad then Some d else None.
Proof.
  unfold Host.drop_last_pad. rewrite rev_app_distr. simpl.
  now rewrite rev_involutive.
Qed.

Lemma drop_last_pad_map_char (xs : list N) :
  Host.drop_last_pad (map Host.b64_char xs) = None.
Proof.
  destruct xs as [|x xs] using rev_ind; [reflexivity|].
  rewrite map_app. simpl. rewrite drop_last_pad_snoc.
  destruct (N.eqb_spec (Host.b64_char x) Host.pad) as [E|]; [|reflexivity].
  now apply b64_char_not_pad in E.
Qed.

Lemma strip_padding_encoded (xs : list N) (n : nat) :
  Host.strip_padding (map Host.b64_char xs ++ Host.padding n) = map Host.b64_char xs.
Proof.
  unfold Host.strip_padding, Host.padding.
  destruct (n mod 3)%nat as [|[|[|k]]].
  - rewrite app_nil_r. now rewrite drop_last_pad_map_char.
  - change [Host.pad; Host.pad] with ([Host.pad] ++ [Host.pad]).
    rewrite app_assoc, drop_last_pad_snoc. simpl.
    now rewrite drop_last_pad_snoc.
  - rewrite drop_last_pad_snoc. simpl. now rewrite drop_last_pad_map_char.
  - rewrite app_nil_r. now rewrite drop_last_pad_map_char.
Qed.

Lemma filter_ws_padding (n : nat) :
  List.filter (fun c => negb (Host.is_ascii_whitespace c)) (Host.padding n)
  = Host.padding n.
Proof. unfold Host.padding. now destruct (n mod 3)%nat as [|[|[|k]]]. Qed.

Lemma padding_length (n : nat) :
  (length (Host.padding n) = (3 - n mod 3) mod 3)%nat.
Proof.
  unfold Host.padding.
  pose proof (Nat.mod_upper_bound n 3 ltac:(lia)) as Hn.
  now destruct (n mod 3)%nat as [|[|[|k]]]; [| | |lia].
Qed.

Lemma bytes_to_sextets_length (bs : list N) :
  (length (Host.bytes_to_sextets bs) = (4 * length bs + 2) / 3)%nat.
Proof.
  induction bs as [|x|x y|x y z r IH] using list_ind3;
    cbn [Host.bytes_to_sextets length]; try reflexivity.
  rewrite IH. nlia.
Qed.

(** [atob] undoes [btoa] on every binary string. *)
Lemma atob_encoded (bs : list N) :
  Forall (fun x => x < 256) bs ->
  Host.atob (map Host.b64_char (Host.bytes_to_sextets bs) ++ Host.padding (length bs))
  = Some bs.
Proof.
  intros Hbs. unfold Host.atob.
  rewrite List.filter_app, filter_ws_map_char, filter_ws_padding.
  assert (Hlen : (length (map Host.b64_char (Host.bytes_to_sextets bs)
                          ++ Host.padding (length bs)) mod 4 = 0)%nat).
  { rewrite length_app, length_map, padding_length, bytes_to_sextets_length. nlia. }
  rewrite Hlen. simpl (0 =? 0)%nat. cbv iota.
  rewrite strip_padding_encoded.
  assert (Hlen' : ((length (map Host.b64_char (Host.bytes_to_sextets bs)) mod 4 =? 1)%nat
                   = false)).
  { apply Nat.eqb_neq. rewrite length_map, bytes_to_sextets_length. nlia. }
  rewrite Hlen'.
  rewrite indices_map_char by now apply bytes_to_sextets_bound.
  now rewrite sextets_roundtrip.
Qed.

Lemma to_N_lt_256 (b : list byte) : Forall (fun x => x < 256) (map Byte.to_N b).
Proof.
  induction b as [|x b IH]; constructor; [|exact IH].
  pose proof (Byte.to_N_bounded x). lia.
Qed.

Lemma forallb_lt_256 (bs : list N) :
  Forall (fun x => x < 256) bs -> forallb (fun c => c <? 256) bs = true.
Proof.
  induction 1 as [|x bs Hx _ IH]; simpl; [reflexivity|].
  rewrite IH. now apply N.ltb_lt in Hx as ->.
Qed.

Lemma map_u8_to_N (b : list byte) : map u8 (map Byte.to_N b) = b.
Proof. induction b as [|x b IH]; simpl; [reflexivity|]. now rewrite u8_to_N, IH. Qed.

Lemma map_to_N_u8 (bs : list N) :
  Forall (fun x => x < 256) bs -> map Byte.to_N (map u8 bs) = bs.
Proof.
  induction 1 as [|x bs Hx _ IH]; simpl; [reflexivity|].
  now rewrite to_N_u8, IH.
Qed.

Lemma encode_total (b : list byte) :
  encode b = Some (map Host.b64_char (Host.bytes_to_sextets (map Byte.to_N b))
                   ++ Host.padding (length b)).
Proof.
  unfold encode, Host.btoa.
  rewrite forallb_lt_256 by apply to_N_lt_256. now rewrite length_map.
Qed.

Lemma decode_encoded (b : list byte) :
  decode (map Host.b64_char (Host.bytes_to_sextets (map Byte.to_N b))
          ++ Host.padding (length b)) = Some b.
Proof.
  unfold decode.
  rewrite <- (length_map Byte.to_N b), atob_encoded by apply to_N_lt_256.
  now rewrite map_u8_to_N.
Qed.

Lemma list_ind4 {A} (P : list A -> Prop) :
  P [] -> (forall x, P [x]) -> (forall x y, P [x; y]) -> (forall x y z, P [x; y; z]) ->
  (forall x y z w r, P r -> P (x :: y :: z :: w :: r)) ->
  forall l, P l.
Proof.
  intros H0 H1 H2 H3 H4.
  assert (H : forall l, P l /\ (forall x, P (x :: l)) /\ (forall x y, P (x :: y :: l))
                        /\ (forall x y z, P (x :: y :: z :: l))).
  { induction l as [|a l (Ha & Hb & Hc & Hd)]; repeat split; auto. }
  intros l. apply H.
Qed.

Lemma padding_add3 (n : nat) : Host.padding (S (S (S n))) = Host.padding n.
Proof.
  unfold Host.padding.
  replace (S (S (S n)) mod 3)%nat with (n mod 3)%nat by nlia. reflexivity.
Qed.

Lemma in_alphabet_index (c : N) :
  in_alphabet c = true -> exists i, Host.b64_char i = c /\ i < 64.
Proof.
  unfold in_alphabet. destruct (Host.b64_index c) as [i|] eqn:E; [|discriminate].
  intros _. exists i. now apply b64_char_index.
Qed.

Lemma in_alphabet_char (i : N) : i < 64 -> in_alphabet (Host.b64_char i) = true.
Proof. intros Hi. unfold in_alphabet. now rewrite b64_index_char. Qed.

(** A canonical string is the [btoa] image of a binary string. *)
Lemma canonical_is_encoding (s : jsstring) :
  canonical_b64 s = true ->
  exists bs, Forall (fun x => x < 256) bs /\
             s = map Host.b64_char (Host.bytes_to_sextets bs) ++ Host.padding (length bs).
Proof.
  induction s as [|a|a b|a b c|a b c d rest IH] using list_ind4;
    try discriminate.
  - intros _. exists []. split; [constructor|reflexivity].
  - cbn [canonical_b64]. destruct rest as [|r0 rest'].
    + clear IH. unfold last_quad.
      destruct (Host.b64_index a) as [i|] eqn:Ea; [|discriminate].
      destruct (Host.b64_index b) as [j|] eqn:Eb; [|discriminate].
      apply b64_char_index in Ea as [<- Hi], Eb as [<- Hj].
      destruct ((c =? Host.pad) && (d =? Host.pad)) eqn:Ecd.
      * intros Hz. bool_hyps. subst c d.
        exists [i * 4 + j / 16]. split; [repeat constructor; nlia|].
        cbn [Host.bytes_to_sextets map app length]. unfold Host.padding. simpl Nat.modulo.
        cbn [app]. repeat f_equal; nlia.
      * destruct (Host.b64_index c) as [k|] eqn:Ec; [|discriminate].
        apply b64_char_index in Ec as [<- Hk].
        destruct (d =? Host.pad) eqn:Ed.
        -- intros Hz. bool_hyps; subst d;
             (exists [i * 4 + j / 16; (j mod 16) * 16 + k / 4]; split;
              [repeat constructor; nlia|];
              cbn [Host.bytes_to_sextets map app length]; unfold Host.padding;
              simpl Nat.modulo; cbn [app]; repeat f_equal; nlia).
        -- intros Hd. apply in_alphabet_index in Hd as (l & <- & Hl).
           exists [i * 4 + j / 16; (j mod 16) * 16 + k / 4; (k mod 4) * 64 + l].
           split; [repeat constructor; nlia|].
           cbn [Host.bytes_to_sextets map app length]. unfold Host.padding.
           simpl Nat.modulo. cbn [app]. repeat f_equal; nlia.
    + intros H. bool_hyps.
      repeat match goal with
             | H : in_alphabet _ = true |- _ =>
                 apply in_alphabet_index in H as (? & <- & ?)
             end.
      destruct IH as (bs & Hbs & Hs); [assumption|].
      match goal with
      | |- context [Host.b64_char ?i :: Host.b64_char ?j :: Host.b64_char ?k
                      :: Host.b64_char ?l :: _] =>
          exists (i * 4 + j / 16 :: (j mod 16) * 16 + k / 4 :: (k mod 4) * 64 + l :: bs)
      end.
      split; [repeat (constructor; [nlia|]); assumption|].
      cbn [Host.bytes_to_sextets map app length]. rewrite padding_add3, <- Hs.
      repeat f_equal; nlia.
Qed.

(** Conversely, what [btoa] writes is canonical. *)
Lemma encoding_is_canonical (bs : list N) :
  Forall (fun x => x < 256) bs ->
  canonical_b64 (map Host.b64_char (Host.bytes_to_sextets bs) ++ Host.padding (length bs))
  = true.
Proof.
  induction bs as [|x|x y|x y z r IH] using list_ind3; intros H.
  - reflexivity.
  - inversion_clear H.
    cbn [Host.bytes_to_sextets map app length canonical_b64]. unfold Host.padding.
    simpl Nat.modulo. cbn [app canonical_b64]. unfold last_quad.
    rewrite !b64_index_char by nlia. rewrite !N.eqb_refl. simpl andb. cbv iota.
    apply N.eqb_eq. nlia.
  - inversion_clear H as [|? ? Hx H']. inversion_clear H'.
    cbn [Host.bytes_to_sextets map app length canonical_b64]. unfold Host.padding.
    simpl Nat.modulo. cbn [app canonical_b64]. unfold last_quad.
    rewrite !b64_index_char by nlia. rewrite N.eqb_refl.
    destruct (N.eqb_spec (Host.b64_char (y mod 16 * 4)) Host.pad) as [E|_];
      [now apply b64_char_not_pad in E|].
    simpl andb. cbv iota. apply N.eqb_eq. nlia.
  - inversion_clear H as [|? ? Hx H']. inversion_clear H' as [|? ? Hy H''].
    inversion_clear H'' as [|? ? Hz Hr]. specialize (IH Hr).
    cbn [Host.bytes_to_sextets map app length canonical_b64].
    rewrite padding_add3.
    destruct (map Host.b64_char (Host.bytes_to_sextets r) ++ Host.padding (length r))
      as [|r0 rest'] eqn:Er.
    + unfold last_quad. rewrite !b64_index_char by nlia.
      destruct (N.eqb_spec (Host.b64_char (y mod 16 * 4 + z / 64)) Host.pad) as [E|_];
        [now apply b64_char_not_pad in E|].
      destruct (N.eqb_spec (Host.b64_char (z mod 64)) Host.pad) as [E|_];
        [now apply b64_char_not_pad in E|].
      simpl andb. cbv iota. apply in_alphabet_char. nlia.
    + rewrite !in_alphabet_char by nlia. exact IH.
Qed.

(** C9 (counterexample).  "QR==" is base64 that [decode] accepts (it is
    well-formed and padded), yet encoding what it decodes to gives "QQ==":
    the four unused low bits of its second character are not zero, and the
    decoder discards them. *)
Lemma base64_encode_decode_not_identity :
  decode (js "QR==") = Some [x41] /\ encode [x41] = Some (js "QQ==")
  /\ js "QQ==" <> js "QR==".
Proof.
  split; [reflexivity|split; [reflexivity|]].
  intros H. vm_compute in H. discriminate H.
Qed.

(** C9 (amended).  [decode] undoes [encode] on every byte array; [encode]
    undoes [decode] on every canonical base64 string, and the canonical
    strings are exactly the ones [encode] writes. *)
Theorem base64_roundtrip :
  (forall b : list byte, exists s, encode b = Some s /\ decode s = Some b) /\
  (forall s : jsstring, canonical_b64 s = true ->
     exists b, decode s = Some b /\ encode b = Some s) /\
  (forall (b : list byte) s, encode b = Some s -> canonical_b64 s = true).
Proof.
  split; [|split].
  - intros b. eexists. split; [apply encode_total|apply decode_encoded].
  - intros s Hs. apply canonical_is_encoding in Hs as (bs & Hbs & ->).
    exists (map u8 bs).
    pose proof (decode_encoded (map u8 bs)) as Hd.
    pose proof (encode_total (map u8 bs)) as He.
    rewrite (map_to_N_u8 bs Hbs), length_map in Hd, He. now split.
  - intros b s. rewrite encode_total. intros [= <-].
    rewrite <- (length_map Byte.to_N b).
    apply encoding_is_canonical, to_N_lt_256.
Qed.

Lemma base64_roundtrip_witness :
  canonical_b64 (js "aGVsbG8=") = true /\
  exists b, decode (js "aGVsbG8=") = Some b /\ encode b = Some (js "aGVsbG8=").
Proof.
  split; [reflexivity|].
  apply (proj1 (proj2 base64_roundtrip)). reflexivity.
Defined.

(** ** The text sent to the text-to-speech model *)

Lemma list_ind2 {A} (P : list A -> Prop) :
  P [] -> (forall x, P [x]) -> (forall x y r, P r -> P (y :: r) -> P (x :: y :: r)) ->
  forall l, P l.
Proof.
  intros H0 H1 H2.
  assert (H : forall l, P l /\ (forall x, P (x :: l))).
  { induction l as [|a l [Ha Hb]]; split; auto. }
  intros l. apply H.
Qed.

Example cleanText_sample :
  GeminiService.cleanText (js "## A *b*`c`") = js " A bc"
  /\ GeminiService.replace_double_newlines [97; 10; 10; 10; 98] = [97; 46; 32; 10; 98]
  /\ GeminiService.replace_double_newlines [10; 10; 10; 10] = [46; 32; 46; 32].
Proof. repeat split; reflexivity. Qed.

Lemma remove_markup_clean (t : jsstring) :
  Forall (fun c => GeminiService.is_markup c = false) (GeminiService.remove_markup t).
Proof.
  unfold GeminiService.remove_markup.
  induction t as [|c t IH]; simpl; [constructor|].
  destruct (GeminiService.is_markup c) eqn:E; simpl; [exact IH|].
  now constructor.
Qed.

Lemma replace_double_newlines_clean (t : jsstring) :
  Forall (fun c => GeminiService.is_markup c = false) t ->
  Forall (fun c => GeminiService.is_markup c = false)
    (GeminiService.replace_double_newlines t).
Proof.
  induction t as [|x|x y r IHr IHyr] using list_ind2; intros H.
  - constructor.
  - exact H.
  - cbn [GeminiService.replace_double_newlines].
    inversion H as [|? ? Hx Hyr]; subst. inversion Hyr as [|? ? Hy Hr]; subst.
    destruct ((x =? 10) && (y =? 10)).
    + repeat (constructor; [reflexivity|]). now apply IHr.
    + constructor; [exact Hx|]. now apply IHyr.
Qed.

Lemma has_double_newline_cons (c : N) (t : jsstring) :
  GeminiService.has_double_newline (c :: t)
  = (c =? 10) && GeminiService.starts_with_newline t || GeminiService.has_double_newline t.
Proof.
  unfold GeminiService.has_double_newline.
  destruct t as [|c' t]; simpl; [now rewrite andb_false_r|reflexivity].
Qed.

Lemma replace_double_newlines_head (t : jsstring) :
  GeminiService.starts_with_newline (GeminiService.replace_double_newlines t)
  = GeminiService.starts_with_newline t && negb (GeminiService.starts_with_newline (tl t)).
Proof.
  destruct t as [|c [|c' r]]; simpl; [reflexivity|now rewrite andb_true_r|].
  destruct (c =? 10) eqn:Ec, (c' =? 10) eqn:Ec'; simpl; rewrite ?Ec; reflexivity.
Qed.

Lemma replace_double_newlines_cons2 (x y : N) (r : jsstring) :
  GeminiService.replace_double_newlines (x :: y :: r)
  = if (x =? 10) && (y =? 10)
    then 46 :: 32 :: GeminiService.replace_double_newlines r
    else x :: GeminiService.replace_double_newlines (y :: r).
Proof. reflexivity. Qed.

Lemma replace_double_newlines_none (t : jsstring) :
  GeminiService.has_double_newline (GeminiService.replace_double_newlines t) = false.
Proof.
  induction t as [|x|x y r IHr IHyr] using list_ind2; try reflexivity.
  rewrite replace_double_newlines_cons2.
  destruct ((x =? 10) && (y =? 10)) eqn:E.
  - rewrite !has_double_newline_cons, IHr. reflexivity.
  - rewrite has_double_newline_cons, IHyr, replace_double_newlines_head.
    simpl GeminiService.starts_with_newline.
    destruct (x =? 10), (y =? 10); simpl in *; congruence.
Qed.

Lemma has_double_newline_firstn (n : nat) (t : jsstring) :
  GeminiService.has_double_newline t = false ->
  GeminiService.has_double_newline (firstn n t) = false.
Proof.
  revert n. induction t as [|c t IH]; intros n H.
  - now destruct n.
  - destruct n as [|n]; [reflexivity|]. cbn [firstn].
    rewrite has_double_newline_cons in *.
    apply orb_false_iff in H as [H1 H2]. rewrite (IH n H2), orb_false_r.
    destruct (c =? 10); [|reflexivity]. simpl in *.
    destruct t as [|c' t]; [now destruct n|].
    destruct n; [reflexivity|exact H1].
Qed.

Lemma cleanText_spec (text : jsstring) :
  let cleaned :=
    GeminiService.replace_double_newlines (GeminiService.remove_markup text) in
  (length (GeminiService.cleanText text) <= 1500)%nat
  /\ GeminiService.cleanText text ++ skipn 1500 cleaned = cleaned
  /\ ((length cleaned <= 1500)%nat -> GeminiService.cleanText text = cleaned)
  /\ ((1500 < length cleaned)%nat -> length (GeminiService.cleanText text) = 1500%nat)
  /\ Forall (fun c => GeminiService.is_markup c = false) (GeminiService.cleanText text)
  /\ GeminiService.has_double_newline (GeminiService.cleanText text) = false.
Proof.
  intros cleaned. unfold GeminiService.cleanText. fold cleaned.
  repeat split.
  - rewrite length_take. lia.
  - apply take_drop.
  - intros H. now apply take_ge.
  - intros H. rewrite length_take. lia.
  - apply Forall_take, replace_double_newlines_clean, remove_markup_clean.
  - apply has_double_newline_firstn, replace_double_newlines_none.
Qed.

Lemma getValidUser_tts_requests (w : World) :
  tts_requests (snd (DbService.getValidUser w)) = tts_requests w.
Proof. unfold DbService.getValidUser. now destruct (currentUser w). Qed.

Lemma getCachedAnswer_tts_requests (q : jsstring) (w : World) :
  tts_requests (snd (DbService.getCachedAnswer q w)) = tts_requests w.
Proof.
  unfold DbService.getCachedAnswer, DbService.getValidUser.
  destruct (currentUser w); [|reflexivity]. now destruct (firestore_down w).
Qed.




(** ** The cache layer *)

(** C7 (counterexample).  A signed-in user whose e-mail is not verified is
    not "no user" for the cache layer: the lookup reads the store and the
    save writes to it. *)
Lemma cache_operations_run_for_unverified_user :
  let w := signedInAs (Some unverified)
             (set_ai_answers {[ js "q1" := entry_q1 ]} empty_world) in
  emailVerified unverified = false
  /\ fst (DbService.getCachedAnswer (js "q1") w) = Some entry_q1
  /\ ai_answers (DbService.saveAnswerToCache entry_q1' w) !! js "q1" = Some entry_q1'.
Proof.
  intros w. split; [reflexivity|]. split.
  - unfold DbService.getCachedAnswer. simpl. apply lookup_singleton_eq.
  - unfold DbService.saveAnswerToCache. simpl. apply lookup_insert_eq.
Qed.

(** C7 (amended).  When nobody is signed in ([auth.currentUser] is null)
    every cache operation is skipped: a read returns null or the empty
    list, a write returns, nothing is thrown, Firestore is not called (the
    collections are unchanged) and the only effect is one warning on the
    console. *)
Theorem cache_operations_skip_without_user :
  forall w : World,
    currentUser w = None ->
    let skipped := log (Warn "Operation skipped: No authenticated user found.") w in
    (forall q, DbService.getCachedAnswer q w = (None, skipped))
    /\ (forall e, DbService.saveAnswerToCache e w = skipped)
    /\ DbService.getAllCachedIds w = ([], skipped)
    /\ DbService.getCustomQuestions w = ([], skipped)
    /\ (forall q, DbService.saveCustomQuestion q w = skipped)
    /\ (forall i, DbService.deleteCustomQuestion i w = skipped)
    /\ ai_answers skipped = ai_answers w
    /\ user_questions skipped = user_questions w.
Proof.
  intros w Hw skipped.
  unfold DbService.getCachedAnswer, DbService.saveAnswerToCache,
    DbService.getAllCachedIds, DbService.getCustomQuestions,
    DbService.saveCustomQuestion, DbService.deleteCustomQuestion,
    DbService.getValidUser.
  rewrite Hw. repeat split.
Qed.

Lemma cache_operations_skip_without_user_witness :
  DbService.getCachedAnswer (js "q1")
    (set_ai_answers {[ js "q1" := entry_q1 ]} empty_world)
  = (None, log (Warn "Operation skipped: No authenticated user found.")
             (set_ai_answers {[ js "q1" := entry_q1 ]} empty_world)).
Proof.
  apply (cache_operations_skip_without_user
           (set_ai_answers {[ js "q1" := entry_q1 ]} empty_world)).
  reflexivity.
Defined.

(** C8 (counterexample).  Alice answers question q1 and the entry is
    cached; Bob, a different user, then reads Alice's entry under the same
    key and overwrites it, and Alice reads back Bob's entry. *)
Lemma cached_answers_not_per_user :
  let w1 := DbService.saveAnswerToCache entry_q1 (signedInAs (Some alice) empty_world) in
  let w2 := DbService.saveAnswerToCache entry_q1' (signedInAs (Some bob) w1) in
  fst (DbService.getCachedAnswer (js "q1") (signedInAs (Some bob) w1)) = Some entry_q1
  /\ fst (DbService.getCachedAnswer (js "q1") (signedInAs (Some alice) w2)) = Some entry_q1'
  /\ uid alice <> uid bob.
Proof.
  split; [|split].
  - unfold DbService.getCachedAnswer, DbService.saveAnswerToCache. simpl.
    apply lookup_insert_eq.
  - unfold DbService.getCachedAnswer, DbService.saveAnswerToCache. simpl.
    apply lookup_insert_eq.
  - intros H. vm_compute in H. discriminate H.
Qed.

(** C8 (amended).  Answers and their audio are cached under the question
    identifier alone, in one collection shared by all signed-in users: a
    save writes the entry at [questionId] whoever is signed in, a lookup
    does not depend on who is signed in, and what one user saved is what
    any other user reads. *)
Theorem cached_answers_keyed_by_question :
  forall (w : World) (u1 u2 : User) (e : CachedEntry),
    firestore_down w = false ->
    ai_answers (DbService.saveAnswerToCache e (signedInAs (Some u1) w))
    = <[questionId e := e]> (ai_answers w)
    /\ (forall q, fst (DbService.getCachedAnswer q (signedInAs (Some u1) w))
                  = fst (DbService.getCachedAnswer q (signedInAs (Some u2) w)))
    /\ fst (DbService.getCachedAnswer (questionId e)
              (signedInAs (Some u2)
                 (DbService.saveAnswerToCache e (signedInAs (Some u1) w))))
       = Some e.
Proof.
  intros w u1 u2 e Hup.
  unfold DbService.getCachedAnswer, DbService.saveAnswerToCache. simpl.
  rewrite Hup. simpl. rewrite Hup. repeat split. apply lookup_insert_eq.
Qed.

Lemma cached_answers_keyed_by_question_witness :
  fst (DbService.getCachedAnswer (questionId entry_q1)
         (signedInAs (Some bob)
            (DbService.saveAnswerToCache entry_q1 (signedInAs (Some alice) empty_world))))
  = Some entry_q1.
Proof.
  apply (cached_answers_keyed_by_question empty_world alice bob entry_q1).
  reflexivity.
Defined.

(** ** stop() of the clip player and of the session controller *)

Lemma stop_all_empty (g : list VoiceAssistant.SourceNode) :
  VoiceAssistant.stop_all ∅ g = g.
Proof.
  unfold VoiceAssistant.stop_all. apply list_eq. intros i.
  rewrite list_lookup_imap. destruct (g !! i) as [node|]; [|reflexivity].
  simpl. now rewrite bool_decide_false by set_solver.
Qed.

Example stopAudio_stops_the_source :
  let s := App.run [App.PlayAudio (js "q1") (js "text");
                    App.FetchSettled 0 (Some (js "AAAAAA=="));
                    App.DecodeSettled 0] App.initial in
  App.isPlaying s = true
  /\ App.audioSourceRef s = Some 0%nat
  /\ map App.stopped (App.nodes s) = [false]
  /\ map App.stopped (App.nodes (App.stopAudio s)) = [true].
Proof. repeat split; reflexivity. Qed.

(** C5.  [stopAudio] and [stopSession] are total functions of the state
    (the calls that may throw sit in empty [catch]es).  After either, the
    playing flag ([isPlaying], resp. [isActive]) is false and the token
    ([activeAudioQuestionIdRef], resp. [sessionRef]) is cleared, and a
    second call changes nothing at all: no further [stop()] or [close()]
    is issued and the state, traces included, is the same. *)
Theorem stop_idempotent :
  (forall s : App.Player,
     App.isPlaying (App.stopAudio s) = false
     /\ App.activeAudioQuestionIdRef (App.stopAudio s) = None
     /\ App.audioSourceRef (App.stopAudio s) = None
     /\ App.stopAudio (App.stopAudio s) = App.stopAudio s)
  /\ (forall s : VoiceAssistant.Assistant,
        VoiceAssistant.isActive (VoiceAssistant.stopSession s) = false
        /\ VoiceAssistant.sessionRef (VoiceAssistant.stopSession s) = None
        /\ VoiceAssistant.sourcesRef (VoiceAssistant.stopSession s) = ∅
        /\ VoiceAssistant.nextStartTimeRef (VoiceAssistant.stopSession s) = 0%Z
        /\ VoiceAssistant.stopSession (VoiceAssistant.stopSession s)
           = VoiceAssistant.stopSession s)
  /\ App.stopAudio App.initial = App.initial
  /\ VoiceAssistant.stopSession VoiceAssistant.initial = VoiceAssistant.initial.
Proof.
  split; [|split; [|split]].
  - intros s. repeat split.
  - intros s. repeat split.
    unfold VoiceAssistant.stopSession. simpl. now rewrite stop_all_empty.
  - reflexivity.
  - reflexivity.
Qed.

(** ** startSession *)

(** C6 (counterexample).  The microphone is refused on the first start:
    the controller is idle, but [audioContextRef] now holds the output
    context that was created before the failure, and two audio contexts
    exist. *)
Lemma failed_start_keeps_output_context :
  let s := VoiceAssistant.startSession VoiceAssistant.UserMediaRejects
             VoiceAssistant.initial in
  VoiceAssistant.audioContextRef VoiceAssistant.initial = None
  /\ VoiceAssistant.audioContextRef s = Some 1%nat
  /\ VoiceAssistant.contexts s = 2%nat
  /\ VoiceAssistant.phase s = VoiceAssistant.Idle.
Proof. repeat split; reflexivity. Qed.

(** C6 (amended).  When [startSession] fails before the session handle is
    obtained, the error is logged and the controller stays as it was: the
    active flag is not set (an idle controller stays idle, it is never
    left connecting), no session handle is stored, the scheduling state
    (next start time, tracked sources, the sources themselves) is
    unchanged and nothing is closed.  The one piece of state that a failed
    start retains is [audioContextRef]: once the output context has been
    created, the ref holds it. *)
Theorem failed_start_leaves_idle :
  forall (s : VoiceAssistant.Assistant) (o : VoiceAssistant.StartOutcome),
    VoiceAssistant.failed o = true ->
    let s' := VoiceAssistant.startSession o s in
    VoiceAssistant.console s'
    = VoiceAssistant.console s ++ [Error "Failed to start voice assistant:"]
    /\ VoiceAssistant.isActive s' = VoiceAssistant.isActive s
    /\ (VoiceAssistant.isActive s = false ->
        VoiceAssistant.phase s' = VoiceAssistant.Idle)
    /\ VoiceAssistant.sessionRef s' = VoiceAssistant.sessionRef s
    /\ VoiceAssistant.nextStartTimeRef s' = VoiceAssistant.nextStartTimeRef s
    /\ VoiceAssistant.sourcesRef s' = VoiceAssistant.sourcesRef s
    /\ VoiceAssistant.graph s' = VoiceAssistant.graph s
    /\ VoiceAssistant.closed s' = VoiceAssistant.closed s
    /\ VoiceAssistant.audioContextRef s'
       = match o with
         | VoiceAssistant.UserMediaRejects | VoiceAssistant.ConnectRejects =>
             Some (VoiceAssistant.contexts s + 1)%nat
         | _ => VoiceAssistant.audioContextRef s
         end.
Proof.
  intros s o Ho s'. subst s'. unfold VoiceAssistant.phase.
  destruct o; try discriminate Ho; simpl; repeat split; try reflexivity;
    now intros ->.
Qed.

Lemma failed_start_leaves_idle_witness :
  VoiceAssistant.phase
    (VoiceAssistant.startSession VoiceAssistant.ConnectRejects VoiceAssistant.initial)
  = VoiceAssistant.Idle.
Proof.
  apply (failed_start_leaves_idle VoiceAssistant.initial VoiceAssistant.ConnectRejects);
    reflexivity.
Defined.

(** ** The clip player: stale fetches are discarded *)

Lemma stop_node_length (n : nat) (ns : list App.SourceNode) :
  length (App.stop_node n ns) = length ns.
Proof.
  unfold App.stop_node. destruct (ns !! n); [apply length_insert|reflexivity].
Qed.

Lemma playAudio_nodes_length (q t : jsstring) (s : App.Player) :
  length (App.nodes (App.playAudio q t s)) = length (App.nodes s).
Proof.
  simpl. destruct (App.audioSourceRef s); [apply stop_node_length|reflexivity].
Qed.

Lemma run_calls_nodes_length (calls : list (jsstring * jsstring)) (s : App.Player) :
  length (App.nodes (App.run (map App.play calls) s)) = length (App.nodes s).
Proof.
  revert s. induction calls as [|c calls IH]; intros s; [reflexivity|].
  change (App.run (map App.play (c :: calls)) s)
    with (App.run (map App.play calls) (App.playAudio (fst c) (snd c) s)).
  now rewrite IH, playAudio_nodes_length.
Qed.

Lemma is_active_true (q : jsstring) (s : App.Player) :
  App.is_active q s = true -> App.activeAudioQuestionIdRef s = Some q.
Proof. unfold App.is_active. intros H. now apply bool_decide_eq_true in H. Qed.

Lemma completion_keeps_token (e : App.Event) (s : App.Player) :
  App.is_completion e = true ->
  App.activeAudioQuestionIdRef (App.step e s) = App.activeAudioQuestionIdRef s.
Proof.
  destruct e as [q t|k fetched|k| |n]; try discriminate; intros _; simpl.
  - unfold App.fetch_settled. repeat case_match; reflexivity.
  - unfold App.decode_settled. repeat case_match; reflexivity.
  - unfold App.ended. repeat case_match; reflexivity.
Qed.

(** A resumption starts at most one source, and only for the active id. *)
Lemma completion_starts_active (e : App.Event) (s : App.Player) :
  App.is_completion e = true ->
  exists new,
    App.nodes (App.step e s) = App.nodes s ++ new
    /\ Forall (fun node => App.activeAudioQuestionIdRef s = Some (App.owner node)) new.
Proof.
  destruct e as [q t|k fetched|k| |n]; try discriminate; intros _; simpl.
  - exists []. rewrite app_nil_r. split; [|constructor].
    unfold App.fetch_settled. repeat case_match; reflexivity.
  - unfold App.decode_settled.
    destruct (App.pending s !! k) as [[q|q [audioBuffer|]|]|];
      try (exists []; rewrite app_nil_r; split; [reflexivity|constructor]).
    destruct (App.is_active q s) eqn:Hq; simpl.
    + eexists [_]. split; [reflexivity|].
      constructor; [|constructor]. simpl. now apply is_active_true.
    + exists []. rewrite app_nil_r. split; [reflexivity|constructor].
  - exists []. rewrite app_nil_r. split; [|constructor].
    unfold App.ended. repeat case_match; reflexivity.
Qed.

Lemma player_run_cons (e : App.Event) (es : list App.Event) (s : App.Player) :
  App.run (e :: es) s = App.run es (App.step e s).
Proof. reflexivity. Qed.

Lemma player_run_app (es1 es2 : list App.Event) (s : App.Player) :
  App.run (es1 ++ es2) s = App.run es2 (App.run es1 s).
Proof. apply fold_left_app. Qed.

Lemma completions_keep_token (cs : list App.Event) (s : App.Player) :
  forallb App.is_completion cs = true ->
  App.activeAudioQuestionIdRef (App.run cs s) = App.activeAudioQuestionIdRef s.
Proof.
  revert s. induction cs as [|e cs IH]; intros s Hcs; [reflexivity|].
  simpl in Hcs. apply andb_true_iff in Hcs as [He Hcs].
  rewrite player_run_cons, IH by exact Hcs. now apply completion_keeps_token.
Qed.

Lemma completions_start_active (cs : list App.Event) (s : App.Player) (q : jsstring) :
  forallb App.is_completion cs = true ->
  App.activeAudioQuestionIdRef s = Some q ->
  exists new,
    App.nodes (App.run cs s) = App.nodes s ++ new
    /\ Forall (fun node => App.owner node = q) new.
Proof.
  revert s. induction cs as [|e cs IH]; intros s Hcs Hq.
  - exists []. now rewrite app_nil_r.
  - simpl in Hcs. apply andb_true_iff in Hcs as [He Hcs].
    destruct (completion_starts_active e s He) as (new1 & Hn1 & Hall1).
    destruct (IH (App.step e s) Hcs) as (new2 & Hn2 & Hall2).
    { now rewrite completion_keeps_token. }
    exists (new1 ++ new2). split.
    + rewrite player_run_cons, Hn2, Hn1. now rewrite app_assoc.
    + apply Forall_app. split; [|exact Hall2].
      eapply Forall_impl; [exact Hall1|]. simpl. intros node Hnode. congruence.
Qed.

Example stale_fetch_is_discarded :
  let s := App.run [App.PlayAudio (js "q1") (js "one");
                    App.PlayAudio (js "q2") (js "two");
                    App.FetchSettled 0 (Some (js "AAAAAA=="));
                    App.DecodeSettled 0;
                    App.FetchSettled 1 (Some (js "AAAAAA=="));
                    App.DecodeSettled 1] App.initial in
  map App.owner (App.nodes s) = [js "q2"] /\ App.isPlaying s = true.
Proof. split; vm_compute; reflexivity. Qed.

(** C3.  A fetch (or decode) that completes when the active-id token is no
    longer the id captured by its call is dropped: the call is settled and
    no source is created or started, the playing flag, the current source,
    the loading flag and the console are untouched.  Hence, after calls of
    [playAudio] issued before any of them resolves, whatever the order in
    which the fetches and decodes then complete (or fail), every source
    started belongs to the id of the last call. *)
Theorem only_last_requested_clip_starts :
  (forall (s : App.Player) (k : nat) (q : jsstring) (fetched : jsstring),
     App.pending s !! k = Some (App.AwaitFetch q) ->
     App.activeAudioQuestionIdRef s <> Some q ->
     App.fetch_settled k (Some fetched) s = App.set_invocation k App.Settled s)
  /\ (forall (s : App.Player) (k : nat) (q : jsstring) (audioBuffer : AudioBuffer),
        App.pending s !! k = Some (App.AwaitDecode q (Some audioBuffer)) ->
        App.activeAudioQuestionIdRef s <> Some q ->
        App.decode_settled k s = App.set_invocation k App.Settled s)
  /\ (forall (s0 : App.Player) (calls : list (jsstring * jsstring))
             (q text : jsstring) (completions : list App.Event),
        forallb App.is_completion completions = true ->
        let s := App.run (map App.play calls ++ [App.PlayAudio q text] ++ completions) s0 in
        App.activeAudioQuestionIdRef s = Some q
        /\ forall n node,
             (length (App.nodes s0) <= n)%nat ->
             App.nodes s !! n = Some node ->
             App.owner node = q).
Proof.
  split; [|split].
  - intros s k q fetched Hk Hq. unfold App.fetch_settled. rewrite Hk.
    unfold App.is_active. rewrite bool_decide_false by exact Hq. simpl.
    unfold App.finally, App.is_active. simpl.
    rewrite bool_decide_false by exact Hq. now destruct s.
  - intros s k q audioBuffer Hk Hq. unfold App.decode_settled. rewrite Hk.
    unfold App.is_active. rewrite bool_decide_false by exact Hq. simpl.
    unfold App.finally, App.is_active. simpl.
    rewrite bool_decide_false by exact Hq. now destruct s.
  - intros s0 calls q text completions Hcs s. subst s.
    rewrite !player_run_app, player_run_cons.
    set (s1 := App.run (map App.play calls) s0).
    assert (Hlen : length (App.nodes (App.playAudio q text s1)) = length (App.nodes s0)).
    { rewrite playAudio_nodes_length. apply run_calls_nodes_length. }
    destruct (completions_start_active completions (App.playAudio q text s1) q Hcs)
      as (new & Hnodes & Hall); [reflexivity|].
    change (App.step (App.PlayAudio q text) s1) with (App.playAudio q text s1).
    change (App.run [] (App.playAudio q text s1)) with (App.playAudio q text s1).
    split.
    + now rewrite completions_keep_token.
    + intros n node Hn Hnode. rewrite Hnodes in Hnode.
      rewrite lookup_app_r in Hnode by lia.
      rewrite Forall_forall in Hall. apply Hall.
      eapply list_elem_of_lookup_2. exact Hnode.
Qed.

Lemma only_last_requested_clip_starts_witness :
  App.activeAudioQuestionIdRef
    (App.run (map App.play [(js "q1", js "one")]
              ++ [App.PlayAudio (js "q2") (js "two")]
              ++ [App.FetchSettled 0 (Some (js "AAAAAA==")); App.DecodeSettled 0;
                  App.FetchSettled 1 (Some (js "AAAAAA==")); App.DecodeSettled 1])
       App.initial)
  = Some (js "q2").
Proof.
  exact (proj1 (proj2 (proj2 only_last_requested_clip_starts)
                 App.initial [(js "q1", js "one")] (js "q2") (js "two")
                 [App.FetchSettled 0 (Some (js "AAAAAA==")); App.DecodeSettled 0;
                  App.FetchSettled 1 (Some (js "AAAAAA==")); App.DecodeSettled 1]
                 eq_refl)).
Defined.

(** ** The live session: scheduling of inbound chunks *)

Lemma duration_nonneg (b : AudioBuffer) : (0 <= duration b)%Z.
Proof. unfold duration. lia. Qed.

Lemma assistant_run_cons (e : VoiceAssistant.Event) (es : list VoiceAssistant.Event)
    (s : VoiceAssistant.Assistant) :
  VoiceAssistant.run (e :: es) s = VoiceAssistant.run es (VoiceAssistant.step e s).
Proof. reflexivity. Qed.

Lemma audio_part_audio (now : Z) (msg : VoiceAssistant.LiveServerMessage)
    (b : AudioBuffer) (s : VoiceAssistant.Assistant) :
  VoiceAssistant.payload msg = VoiceAssistant.Audio b ->
  VoiceAssistant.audio_part now msg s
  = (VoiceAssistant.schedule b (VoiceAssistant.clock_max now s), VoiceAssistant.Returned).
Proof.
  unfold VoiceAssistant.payload, VoiceAssistant.audio_part.
  destruct (VoiceAssistant.base64Audio msg) as [audio|]; [|discriminate].
  destruct (truthy audio) as [base64|]; [|discriminate].
  destruct (decode base64 ≫= decodeAudioData) as [b'|]; [|discriminate].
  now intros [= ->].
Qed.


Lemma onmessage_carries (now : Z) (msg : VoiceAssistant.LiveServerMessage)
    (b : AudioBuffer) (s : VoiceAssistant.Assistant) :
  VoiceAssistant.carries msg b ->
  VoiceAssistant.onmessage now msg s
  = (VoiceAssistant.schedule b (VoiceAssistant.clock_max now s), VoiceAssistant.Returned).
Proof.
  intros [Hp Hi]. unfold VoiceAssistant.onmessage.
  now rewrite (audio_part_audio now msg b s Hp), Hi.
Qed.

Example two_chunks_back_to_back :
  let s := VoiceAssistant.run
             [VoiceAssistant.Click (VoiceAssistant.Connected 7);
              VoiceAssistant.Message 7 (VoiceAssistant.audio_message 5 None);
              VoiceAssistant.Message 7 (VoiceAssistant.audio_message 3 None)]
             VoiceAssistant.initial in
  map VoiceAssistant.startAt (VoiceAssistant.graph s) = [7; 12]%Z
  /\ VoiceAssistant.nextStartTimeRef s = 15%Z.
Proof. split; vm_compute; reflexivity. Qed.

(** At a fixed clock reading that the timeline has reached, chunk messages
    extend the graph by the back-to-back plan. *)
Lemma run_chunks_from (now : Z) (msgs : list VoiceAssistant.LiveServerMessage)
    (bufs : list AudioBuffer) :
  Forall2 VoiceAssistant.carries msgs bufs ->
  forall s : VoiceAssistant.Assistant,
    (now <= VoiceAssistant.nextStartTimeRef s)%Z ->
    VoiceAssistant.graph (VoiceAssistant.run (map (VoiceAssistant.Message now) msgs) s)
    = VoiceAssistant.graph s ++ VoiceAssistant.plan (VoiceAssistant.nextStartTimeRef s) bufs.
Proof.
  induction 1 as [|msg b msgs bufs Hc _ IH]; intros s Hs.
  - simpl. now rewrite app_nil_r.
  - cbn [map]. rewrite assistant_run_cons. cbn [VoiceAssistant.step].
    rewrite (onmessage_carries now msg b s Hc). cbn [fst].
    rewrite IH.
    + simpl. rewrite Z.max_l by lia. now rewrite <- app_assoc.
    + simpl. pose proof (duration_nonneg b). lia.
Qed.

Lemma run_chunks (now : Z) (msgs : list VoiceAssistant.LiveServerMessage)
    (bufs : list AudioBuffer) (s : VoiceAssistant.Assistant) :
  Forall2 VoiceAssistant.carries msgs bufs ->
  VoiceAssistant.graph (VoiceAssistant.run (map (VoiceAssistant.Message now) msgs) s)
  = VoiceAssistant.graph s
    ++ VoiceAssistant.plan (Z.max (VoiceAssistant.nextStartTimeRef s) now) bufs.
Proof.
  intros H. destruct H as [|msg b msgs bufs Hc Hrest].
  - simpl. now rewrite app_nil_r.
  - cbn [map]. rewrite assistant_run_cons. cbn [VoiceAssistant.step].
    rewrite (onmessage_carries now msg b s Hc). cbn [fst].
    rewrite (run_chunks_from now msgs bufs Hrest).
    + simpl. now rewrite <- app_assoc.
    + simpl. pose proof (duration_nonneg b). lia.
Qed.

Lemma plan_lookup (bufs : list AudioBuffer) :
  forall (t : Z) (i : nat) (b : AudioBuffer),
    bufs !! i = Some b ->
    VoiceAssistant.plan t bufs !! i
    = Some {| VoiceAssistant.startAt := (t + VoiceAssistant.total (take i bufs))%Z;
              VoiceAssistant.buffer := b;
              VoiceAssistant.stopped := false |}.
Proof.
  induction bufs as [|b0 bufs IH]; intros t i b Hi; [discriminate|].
  destruct i as [|i].
  - injection Hi as ->. simpl. now rewrite Z.add_0_r.
  - simpl in Hi. cbn [VoiceAssistant.plan take VoiceAssistant.total fold_right].
    rewrite lookup_cons. rewrite (IH _ i b Hi).
    do 2 f_equal. unfold VoiceAssistant.total. lia.
Qed.

Lemma run_chunks_next (now : Z) (msgs : list VoiceAssistant.LiveServerMessage)
    (bufs : list AudioBuffer) :
  Forall2 VoiceAssistant.carries msgs bufs ->
  forall s : VoiceAssistant.Assistant,
    (now <= VoiceAssistant.nextStartTimeRef s)%Z ->
    VoiceAssistant.nextStartTimeRef
      (VoiceAssistant.run (map (VoiceAssistant.Message now) msgs) s)
    = (VoiceAssistant.nextStartTimeRef s + VoiceAssistant.total bufs)%Z.
Proof.
  induction 1 as [|msg b msgs bufs Hc _ IH]; intros s Hs.
  - simpl. lia.
  - cbn [map]. rewrite assistant_run_cons. cbn [VoiceAssistant.step].
    rewrite (onmessage_carries now msg b s Hc). cbn [fst].
    rewrite IH.
    + simpl. rewrite Z.max_l by lia. lia.
    + simpl. pose proof (duration_nonneg b). lia.
Qed.

(** C1.  The first [if] of the callback, on a message with a decodable
    audio payload, starts the source at [max(nextStartTimeRef, currentTime)],
    then sets [nextStartTimeRef] to that start time plus the chunk's
    duration and tracks the source; without an interruption flag in the
    message this is the state the callback leaves.  Hence chunks of
    durations d1..dN that all arrive at the same clock reading [now], with
    no interruption, on a timeline that has not run ahead of the clock,
    are scheduled at [now], [now + d1], ...: the i-th at [now] plus the sum
    of the durations before it, that is at d1 + ... + d(i-1) measured from
    the instant of arrival, and the next start time ends at [now] plus the
    sum of all durations. *)
Theorem chunks_scheduled_back_to_back :
  (forall (s : VoiceAssistant.Assistant) (now : Z)
          (msg : VoiceAssistant.LiveServerMessage) (b : AudioBuffer),
     VoiceAssistant.payload msg = VoiceAssistant.Audio b ->
     let start := Z.max (VoiceAssistant.nextStartTimeRef s) now in
     let s' := fst (VoiceAssistant.audio_part now msg s) in
     snd (VoiceAssistant.audio_part now msg s) = VoiceAssistant.Returned
     /\ VoiceAssistant.graph s'
        = VoiceAssistant.graph s
          ++ [{| VoiceAssistant.startAt := start; VoiceAssistant.buffer := b;
                 VoiceAssistant.stopped := false |}]
     /\ VoiceAssistant.nextStartTimeRef s' = (start + duration b)%Z
     /\ VoiceAssistant.sourcesRef s'
        = {[ length (VoiceAssistant.graph s) ]} ∪ VoiceAssistant.sourcesRef s
     /\ (VoiceAssistant.is_interrupted msg = false ->
         VoiceAssistant.onmessage now msg s = (s', VoiceAssistant.Returned)))
  /\ (forall (s : VoiceAssistant.Assistant) (now : Z)
             (msgs : list VoiceAssistant.LiveServerMessage) (bufs : list AudioBuffer),
        Forall2 VoiceAssistant.carries msgs bufs ->
        (VoiceAssistant.nextStartTimeRef s <= now)%Z ->
        let s' := VoiceAssistant.run (map (VoiceAssistant.Message now) msgs) s in
        (forall (i : nat) (b : AudioBuffer),
           bufs !! i = Some b ->
           VoiceAssistant.graph s' !! (length (VoiceAssistant.graph s) + i)%nat
           = Some {| VoiceAssistant.startAt := (now + VoiceAssistant.total (take i bufs))%Z;
                     VoiceAssistant.buffer := b;
                     VoiceAssistant.stopped := false |})
        /\ length (VoiceAssistant.graph s')
           = (length (VoiceAssistant.graph s) + length bufs)%nat
        /\ (bufs <> [] ->
            VoiceAssistant.nextStartTimeRef s' = (now + VoiceAssistant.total bufs)%Z)).
Proof.
  split.
  - intros s now msg b Hp start s'. subst start s'.
    rewrite (audio_part_audio now msg b s Hp). cbn [fst snd].
    repeat split. intros Hi.
    exact (onmessage_carries now msg b s (conj Hp Hi)).
  - intros s now msgs bufs Hall Hs s'. subst s'.
    rewrite (run_chunks now msgs bufs s Hall). rewrite Z.max_r by lia.
    split; [|split].
    + intros i b Hi. rewrite lookup_app_r by lia.
      replace (length (VoiceAssistant.graph s) + i - length (VoiceAssistant.graph s))%nat
        with i by lia.
      now apply plan_lookup.
    + rewrite length_app. f_equal. clear. generalize now.
      induction bufs as [|b bufs IH]; intros t; simpl; [reflexivity|]. now rewrite IH.
    + intros Hne. destruct Hall as [|msg b msgs bufs Hc Hrest]; [congruence|].
      cbn [map]. rewrite assistant_run_cons. cbn [VoiceAssistant.step].
      rewrite (onmessage_carries now msg b s Hc). cbn [fst].
      rewrite (run_chunks_next now msgs bufs Hrest).
      * simpl. rewrite Z.max_r by lia. unfold VoiceAssistant.total. lia.
      * simpl. pose proof (duration_nonneg b). lia.
Qed.

Lemma carries_audio_message (frames : nat) :
  frames = 5%nat \/ frames = 3%nat ->
  VoiceAssistant.carries (VoiceAssistant.audio_message frames None)
    (VoiceAssistant.silence frames).
Proof. intros [-> | ->]; split; vm_compute; reflexivity. Qed.

Lemma chunks_scheduled_back_to_back_witness :
  VoiceAssistant.graph
    (VoiceAssistant.run
       (map (VoiceAssistant.Message 0)
          [VoiceAssistant.audio_message 5 None; VoiceAssistant.audio_message 3 None])
       VoiceAssistant.initial)
  !! (length (VoiceAssistant.graph VoiceAssistant.initial) + 1)%nat
  = Some {| VoiceAssistant.startAt :=
              (0 + VoiceAssistant.total
                     (take 1 [VoiceAssistant.silence 5; VoiceAssistant.silence 3]))%Z;
            VoiceAssistant.buffer := VoiceAssistant.silence 3;
            VoiceAssistant.stopped := false |}.
Proof.
  apply (proj2 chunks_scheduled_back_to_back VoiceAssistant.initial 0%Z
           [VoiceAssistant.audio_message 5 None; VoiceAssistant.audio_message 3 None]
           [VoiceAssistant.silence 5; VoiceAssistant.silence 3]).
  - constructor; [apply carries_audio_message; now left|].
    constructor; [apply carries_audio_message; now right|]. constructor.
  - simpl. lia.
  - reflexivity.
Defined.

(** ** The live session: interruption *)



Example chunk_after_interruption :
  let s := VoiceAssistant.run
             [VoiceAssistant.Message 0 (VoiceAssistant.audio_message 5 None);
              VoiceAssistant.Message 1 VoiceAssistant.interrupted_message;
              VoiceAssistant.Message 1 (VoiceAssistant.audio_message 3 None)]
             VoiceAssistant.initial in
  map VoiceAssistant.startAt (VoiceAssistant.graph s) = [0; 1]%Z
  /\ map VoiceAssistant.stopped (VoiceAssistant.graph s) = [true; false]
  /\ VoiceAssistant.nextStartTimeRef s = 4%Z.
Proof. repeat split; vm_compute; reflexivity. Qed.



(** ** The live session: tracked sources never overlap *)












(** * Further properties *)

(** ** dbService.ts: custom questions *)

Lemma getCustomQuestions_signed_in (w : World) (u : User) :
  currentUser w = Some u -> firestore_down w = false ->
  DbService.getCustomQuestions w
  = (map (fun kd => doc_question (snd kd))
       (List.filter (fun kd => bool_decide (userId (snd kd) = uid u))
          (map_to_list (user_questions w))), w).
Proof.
  intros Hu Hup. unfold DbService.getCustomQuestions, DbService.getValidUser.
  now rewrite Hu, Hup.
Qed.

Lemma saveCustomQuestion_signed_in (w : World) (u : User) (q : Question) :
  currentUser w = Some u -> firestore_down w = false ->
  DbService.saveCustomQuestion q w
  = set_user_questions
      (<[id q := {| doc_question := q; userId := uid u; createdAt := now_ms w |}]>
         (user_questions w)) w.
Proof.
  intros Hu Hup. unfold DbService.saveCustomQuestion, DbService.getValidUser.
  now rewrite Hu, Hup.
Qed.

Lemma deleteCustomQuestion_signed_in (w : World) (u : User) (i : jsstring) :
  currentUser w = Some u -> firestore_down w = false ->
  DbService.deleteCustomQuestion i w
  = set_user_questions (delete i (user_questions w)) w.
Proof.
  intros Hu Hup. unfold DbService.deleteCustomQuestion, DbService.getValidUser.
  now rewrite Hu, Hup.
Qed.

Lemma listing_iff (w : World) (u : User) (q : Question) :
  currentUser w = Some u -> firestore_down w = false ->
  (q ∈ fst (DbService.getCustomQuestions w)
   <-> exists k d, user_questions w !! k = Some d
                   /\ userId d = uid u /\ doc_question d = q).
Proof.
  intros Hu Hup. rewrite (getCustomQuestions_signed_in w u Hu Hup). cbn [fst].
  rewrite list_elem_of_fmap. split.
  - intros ([k d] & -> & Hin). apply list_elem_of_In, filter_In in Hin as [Hin Hown].
    apply list_elem_of_In, elem_of_map_to_list in Hin.
    apply bool_decide_eq_true in Hown. now exists k, d.
  - intros (k & d & Hk & Hown & <-). exists (k, d). split; [reflexivity|].
    apply list_elem_of_In, filter_In. split.
    + now apply list_elem_of_In, elem_of_map_to_list.
    + now apply bool_decide_eq_true.
Qed.

(** X1.  With a user signed in and Firestore reachable, a saved custom
    question is stored under its id, stamped with the user's id and the
    current time, and is listed for that user; no other document and no
    cached answer is touched. *)
Theorem custom_question_save_then_list :
  forall (w : World) (u : User) (q : Question),
    currentUser w = Some u -> firestore_down w = false ->
    let w' := DbService.saveCustomQuestion q w in
    user_questions w' !! id q
    = Some {| doc_question := q; userId := uid u; createdAt := now_ms w |}
    /\ q ∈ fst (DbService.getCustomQuestions w')
    /\ (forall k, k <> id q -> user_questions w' !! k = user_questions w !! k)
    /\ ai_answers w' = ai_answers w.
Proof.
  intros w u q Hu Hup w'. subst w'.
  rewrite (saveCustomQuestion_signed_in w u q Hu Hup).
  split; [apply lookup_insert_eq|]. split; [|split; [|reflexivity]].
  - apply (listing_iff _ u); [exact Hu|exact Hup|].
    eexists _, _. split; [apply lookup_insert_eq|split; reflexivity].
  - intros k Hk. simpl. now apply lookup_insert_ne.
Qed.

Lemma custom_question_save_then_list_witness :
  question_signals
  ∈ fst (DbService.getCustomQuestions
           (DbService.saveCustomQuestion question_signals
              (signedInAs (Some alice) empty_world))).
Proof.
  apply (custom_question_save_then_list (signedInAs (Some alice) empty_world) alice
           question_signals); reflexivity.
Defined.

(** X2.  The questions listed for the signed-in user are exactly the
    stored documents whose [userId] is that user's id: nothing of another
    user is listed, nothing of the user is missing. *)
Theorem custom_questions_listing :
  forall (w : World) (u : User) (q : Question),
    currentUser w = Some u -> firestore_down w = false ->
    (q ∈ fst (DbService.getCustomQuestions w)
     <-> exists k d, user_questions w !! k = Some d
                     /\ userId d = uid u /\ doc_question d = q).
Proof. exact listing_iff. Qed.

Lemma custom_questions_listing_witness :
  question_signals
  ∈ fst (DbService.getCustomQuestions
           (set_user_questions
              {[ id question_signals :=
                   {| doc_question := question_signals; userId := uid alice;
                      createdAt := 0 |} ]}
              (signedInAs (Some alice) empty_world))).
Proof.
  apply (custom_questions_listing _ alice); [reflexivity|reflexivity|].
  eexists _, _. split; [apply lookup_singleton_eq|split; reflexivity].
Defined.

(** ** dbService.ts: documents stay under their question's id *)

Lemma db_call_user_questions (c : DbCall) (w : World) :
  user_questions (db_call c w) = user_questions w
  \/ (exists q u, user_questions (db_call c w)
                  = <[id q := {| doc_question := q; userId := u;
                                 createdAt := now_ms w |}]> (user_questions w))
  \/ (exists i, user_questions (db_call c w) = delete i (user_questions w)).
Proof.
  destruct c as [q|e| | |q|i|u]; simpl;
    unfold DbService.getCachedAnswer, DbService.saveAnswerToCache,
      DbService.getAllCachedIds, DbService.getCustomQuestions,
      DbService.saveCustomQuestion, DbService.deleteCustomQuestion,
      DbService.getValidUser;
    destruct (currentUser w) as [user|]; simpl; auto;
    destruct (firestore_down w); simpl; auto.
  - right. left. now exists q, (uid user).
  - right. right. now exists i.
Qed.

Lemma well_keyed_db_call (c : DbCall) (w : World) :
  well_keyed w -> well_keyed (db_call c w).
Proof.
  intros Hw k d.
  destruct (db_call_user_questions c w) as [-> | [(q & u & ->) | (i & ->)]].
  - apply Hw.
  - destruct (decide (id q = k)) as [<-|Hne].
    + rewrite lookup_insert_eq. now intros [= <-].
    + rewrite lookup_insert_ne by exact Hne. apply Hw.
  - intros Hd. apply lookup_delete_Some in Hd as [_ Hd]. now apply Hw in Hd.
Qed.

(** X3.  Whatever sequence of operations of the module runs (lookups,
    saves, deletions, sign-ins and sign-outs, Firestore reachable or not),
    starting from an empty store, every custom question document sits
    under the id of the question it holds. *)
Theorem custom_questions_stay_well_keyed :
  forall (cs : list DbCall) (w : World),
    user_questions w = ∅ -> well_keyed (db_calls cs w).
Proof.
  intros cs w Hw. assert (H : well_keyed w).
  { intros k d. rewrite Hw. now rewrite lookup_empty. }
  clear Hw. revert w H. induction cs as [|c cs IH]; intros w H; [exact H|].
  simpl. apply IH. now apply well_keyed_db_call.
Qed.

Lemma custom_questions_stay_well_keyed_witness :
  well_keyed
    (db_calls [SignIn (Some alice); SaveCustomQuestion question_signals;
               DeleteCustomQuestion (js "custom-0"); SignIn None]
       empty_world).
Proof. apply custom_questions_stay_well_keyed. reflexivity. Defined.

(** X4.  Custom questions are private and owned by whoever saved last:
    in a store whose documents sit under their ids, a question that one
    user saves is not listed for a user with another id, and when a second
    user saves a question under the same id (ids are [custom-] plus the
    time in milliseconds) the first user no longer has theirs listed. *)
Theorem custom_question_private_and_overwritten :
  forall (w : World) (u1 u2 : User) (q1 q2 : Question),
    well_keyed w -> firestore_down w = false ->
    uid u1 <> uid u2 ->
    let w1 := DbService.saveCustomQuestion q1 (signedInAs (Some u1) w) in
    (q1 ∉ fst (DbService.getCustomQuestions (signedInAs (Some u2) w1)))
    /\ (id q2 = id q1 ->
        let w2 := DbService.saveCustomQuestion q2 (signedInAs (Some u2) w1) in
        (q1 ∉ fst (DbService.getCustomQuestions (signedInAs (Some u1) w2)))
        /\ q2 ∈ fst (DbService.getCustomQuestions (signedInAs (Some u2) w2))).
Proof.
  intros w u1 u2 q1 q2 Hw Hup Hne w1.
  assert (Hw1 : w1 = set_user_questions
                       (<[id q1 := {| doc_question := q1; userId := uid u1;
                                      createdAt := now_ms w |}]> (user_questions w))
                       (signedInAs (Some u1) w)).
  { apply (saveCustomQuestion_signed_in (signedInAs (Some u1) w) u1 q1);
      [reflexivity|exact Hup]. }
  assert (Hk1 : well_keyed w1).
  { apply (well_keyed_db_call (SaveCustomQuestion q1) (signedInAs (Some u1) w)), Hw. }
  split.
  - intros Hin.
    apply (listing_iff (signedInAs (Some u2) w1) u2) in Hin as (k & d & Hd & Hown & Hq);
      [|reflexivity|now rewrite Hw1].
    simpl in Hd. pose proof (Hk1 k d Hd) as Hk. rewrite Hq in Hk. subst k.
    rewrite Hw1 in Hd. simpl in Hd. rewrite lookup_insert_eq in Hd.
    injection Hd as <-. simpl in Hown. congruence.
  - intros Hid w2.
    assert (Hw2 : w2 = set_user_questions
                         (<[id q2 := {| doc_question := q2; userId := uid u2;
                                        createdAt := now_ms w1 |}]> (user_questions w1))
                         (signedInAs (Some u2) w1)).
    { apply (saveCustomQuestion_signed_in (signedInAs (Some u2) w1) u2 q2);
        [reflexivity|now rewrite Hw1]. }
    assert (Hk2 : well_keyed w2).
    { apply (well_keyed_db_call (SaveCustomQuestion q2) (signedInAs (Some u2) w1)), Hk1. }
    split.
    + intros Hin.
      apply (listing_iff (signedInAs (Some u1) w2) u1) in Hin
        as (k & d & Hd & Hown & Hq); [|reflexivity|now rewrite Hw2, Hw1].
      simpl in Hd. pose proof (Hk2 k d Hd) as Hk. rewrite Hq in Hk. subst k.
      rewrite Hw2 in Hd. simpl in Hd. rewrite <- Hid, lookup_insert_eq in Hd.
      injection Hd as <-. simpl in Hown. congruence.
    + apply (listing_iff (signedInAs (Some u2) w2) u2);
        [reflexivity|now rewrite Hw2, Hw1|].
      eexists _, _. rewrite Hw2. simpl.
      split; [apply lookup_insert_eq|split; reflexivity].
Qed.

Lemma custom_question_private_and_overwritten_witness :
  question_signals
  ∈ fst (DbService.getCustomQuestions
           (signedInAs (Some bob)
              (DbService.saveCustomQuestion question_signals
                 (signedInAs (Some bob)
                    (DbService.saveCustomQuestion question_signals
                       (signedInAs (Some alice) empty_world)))))).
Proof.
  assert (Hw : well_keyed empty_world) by (intros k d H; discriminate H).
  assert (Hne : uid alice <> uid bob)
    by (intros H; vm_compute in H; discriminate H).
  exact (proj2 (proj2 (custom_question_private_and_overwritten empty_world alice bob
                         question_signals question_signals Hw eq_refl Hne)
                  eq_refl)).
Defined.

(** X5.  Deleting a custom question removes the document under that id
    and nothing else; afterwards no listed question has that id, and
    deleting an id that is not stored changes nothing. *)
Theorem custom_question_delete :
  forall (w : World) (u : User) (i : jsstring),
    currentUser w = Some u -> firestore_down w = false ->
    let w' := DbService.deleteCustomQuestion i w in
    user_questions w' !! i = None
    /\ (forall k, k <> i -> user_questions w' !! k = user_questions w !! k)
    /\ ai_answers w' = ai_answers w
    /\ (well_keyed w ->
        forall q, q ∈ fst (DbService.getCustomQuestions w') -> id q <> i)
    /\ (user_questions w !! i = None -> user_questions w' = user_questions w).
Proof.
  intros w u i Hu Hup w'. subst w'.
  rewrite (deleteCustomQuestion_signed_in w u i Hu Hup). simpl.
  split; [apply lookup_delete_eq|]. split; [|split; [reflexivity|split]].
  - intros k Hk. now apply lookup_delete_ne.
  - intros Hw q Hq Hid.
    apply (listing_iff _ u) in Hq as (k & d & Hd & _ & Hdq); [|exact Hu|exact Hup].
    simpl in Hd. apply lookup_delete_Some in Hd as [Hki Hd].
    apply Hw in Hd. congruence.
  - intros Hnone. now apply delete_id.
Qed.

Lemma custom_question_delete_witness :
  user_questions
    (DbService.deleteCustomQuestion (id question_signals)
       (DbService.saveCustomQuestion question_signals
          (signedInAs (Some alice) empty_world)))
  !! id question_signals = None.
Proof.
  apply (custom_question_delete
           (DbService.saveCustomQuestion question_signals
              (signedInAs (Some alice) empty_world)) alice);
    reflexivity.
Defined.

(** ** dbService.ts: Firestore failures and the answer cache *)

Lemma saveAnswerToCache_signed_in (w : World) (u : User) (e : CachedEntry) :
  currentUser w = Some u -> firestore_down w = false ->
  DbService.saveAnswerToCache e w
  = set_ai_answers (<[questionId e := e]> (ai_answers w)) w.
Proof.
  intros Hu Hup. unfold DbService.saveAnswerToCache, DbService.getValidUser.
  now rewrite Hu, Hup.
Qed.

Lemma getCachedAnswer_signed_in (w : World) (u : User) (q : jsstring) :
  currentUser w = Some u -> firestore_down w = false ->
  DbService.getCachedAnswer q w = (ai_answers w !! q, w).
Proof.
  intros Hu Hup. unfold DbService.getCachedAnswer, DbService.getValidUser.
  now rewrite Hu, Hup.
Qed.

(** X6.  When a Firestore call rejects, the operation swallows the error:
    a read returns null or the empty list, a write returns, both
    collections are as before and exactly one error is logged. *)
Theorem firestore_errors_are_swallowed :
  forall (w : World) (u : User),
    currentUser w = Some u -> firestore_down w = true ->
    (forall q, DbService.getCachedAnswer q w
               = (None, log (Error "[Firestore Error] getCachedAnswer") w))
    /\ (forall e, DbService.saveAnswerToCache e w
                  = log (Error "[Firestore Error] saveAnswerToCache") w)
    /\ DbService.getAllCachedIds w
       = ([], log (Error "[Firestore Error] getAllCachedIds") w)
    /\ DbService.getCustomQuestions w
       = ([], log (Error "[Firestore Error] getCustomQuestions") w)
    /\ (forall q, DbService.saveCustomQuestion q w
                  = log (Error "[Firestore Error] saveCustomQuestion") w)
    /\ (forall i, DbService.deleteCustomQuestion i w
                  = log (Error "[Firestore Error] deleteCustomQuestion") w)
    /\ (forall e, ai_answers (log e w) = ai_answers w
                  /\ user_questions (log e w) = user_questions w
                  /\ length (console (log e w)) = S (length (console w))).
Proof.
  intros w u Hu Hdown.
  unfold DbService.getCachedAnswer, DbService.saveAnswerToCache,
    DbService.getAllCachedIds, DbService.getCustomQuestions,
    DbService.saveCustomQuestion, DbService.deleteCustomQuestion,
    DbService.getValidUser.
  rewrite Hu, Hdown. repeat split. simpl. rewrite length_app. simpl. lia.
Qed.

Lemma firestore_errors_are_swallowed_witness :
  DbService.getAllCachedIds
    {| currentUser := Some alice; ai_answers := {[ js "q1" := entry_q1 ]};
       user_questions := ∅; firestore_down := true; now_ms := 0; console := [];
       tts_requests := [] |}
  = ([], log (Error "[Firestore Error] getAllCachedIds")
           {| currentUser := Some alice; ai_answers := {[ js "q1" := entry_q1 ]};
              user_questions := ∅; firestore_down := true; now_ms := 0; console := [];
              tts_requests := [] |}).
Proof.
  apply (firestore_errors_are_swallowed
           {| currentUser := Some alice; ai_answers := {[ js "q1" := entry_q1 ]};
              user_questions := ∅; firestore_down := true; now_ms := 0; console := [];
              tts_requests := [] |} alice); reflexivity.
Defined.

(** X7.  With a user signed in and Firestore reachable, the listed ids
    are exactly the ids under which an answer is cached, each once; an id
    is listed as soon as its answer is saved. *)
Theorem cached_ids_are_the_cached_answers :
  forall (w : World) (u : User),
    currentUser w = Some u -> firestore_down w = false ->
    let ids := fst (DbService.getAllCachedIds w) in
    (forall q, q ∈ ids <-> is_Some (ai_answers w !! q))
    /\ NoDup ids
    /\ length ids = size (ai_answers w)
    /\ (forall e, questionId e ∈ fst (DbService.getAllCachedIds
                                        (DbService.saveAnswerToCache e w))).
Proof.
  intros w u Hu Hup ids. subst ids.
  assert (Hids : forall w', currentUser w' = Some u -> firestore_down w' = false ->
                   fst (DbService.getAllCachedIds w') = map fst (map_to_list (ai_answers w'))).
  { intros w' Hu' Hup'. unfold DbService.getAllCachedIds, DbService.getValidUser.
    now rewrite Hu', Hup'. }
  assert (Hmem : forall w' q, currentUser w' = Some u -> firestore_down w' = false ->
                   (q ∈ fst (DbService.getAllCachedIds w') <-> is_Some (ai_answers w' !! q))).
  { intros w' q Hu' Hup'. rewrite (Hids w' Hu' Hup'), list_elem_of_fmap. split.
    - intros ([k e] & -> & Hin). apply elem_of_map_to_list in Hin. now exists e.
    - intros [e He]. exists (q, e). split; [reflexivity|].
      now apply elem_of_map_to_list. }
  split; [intros q; now apply Hmem|]. split; [|split].
  - rewrite (Hids w Hu Hup). apply NoDup_fst_map_to_list.
  - rewrite (Hids w Hu Hup), length_map. apply length_map_to_list.
  - intros e. apply Hmem.
    + unfold DbService.saveAnswerToCache, DbService.getValidUser.
      now rewrite Hu, Hup.
    + unfold DbService.saveAnswerToCache, DbService.getValidUser.
      now rewrite Hu, Hup.
    + unfold DbService.saveAnswerToCache, DbService.getValidUser.
      rewrite Hu, Hup. simpl. rewrite lookup_insert_eq. now eexists.
Qed.

Lemma cached_ids_are_the_cached_answers_witness :
  questionId entry_q1
  ∈ fst (DbService.getAllCachedIds
           (DbService.saveAnswerToCache entry_q1 (signedInAs (Some alice) empty_world))).
Proof.
  apply (cached_ids_are_the_cached_answers (signedInAs (Some alice) empty_world) alice);
    reflexivity.
Defined.

(** X8.  Saving an answer writes the one document under the entry's
    [questionId]: the other cached answers and the custom questions are
    untouched, the last save under an id wins, and saving the same entry
    again changes nothing. *)
Theorem save_answer_overwrites_one_document :
  forall (w : World) (u : User) (e e' : CachedEntry),
    currentUser w = Some u -> firestore_down w = false ->
    let w1 := DbService.saveAnswerToCache e w in
    (forall q, q <> questionId e -> ai_answers w1 !! q = ai_answers w !! q)
    /\ user_questions w1 = user_questions w
    /\ DbService.saveAnswerToCache e w1 = w1
    /\ (questionId e' = questionId e ->
        DbService.saveAnswerToCache e' w1 = DbService.saveAnswerToCache e' w).
Proof.
  intros w u e e' Hu Hup w1. subst w1.
  rewrite !(saveAnswerToCache_signed_in w u) by assumption.
  rewrite !(saveAnswerToCache_signed_in (set_ai_answers _ w) u) by assumption.
  repeat split.
  - intros q Hq. simpl. now apply lookup_insert_ne.
  - unfold set_ai_answers. simpl. now rewrite insert_insert_eq.
  - intros Hq. unfold set_ai_answers. simpl. rewrite Hq. now rewrite insert_insert_eq.
Qed.

Lemma save_answer_overwrites_one_document_witness :
  DbService.saveAnswerToCache entry_q1'
    (DbService.saveAnswerToCache entry_q1 (signedInAs (Some alice) empty_world))
  = DbService.saveAnswerToCache entry_q1' (signedInAs (Some alice) empty_world).
Proof.
  apply (save_answer_overwrites_one_document (signedInAs (Some alice) empty_world) alice
           entry_q1 entry_q1'); reflexivity.
Defined.

(** ** geminiService.ts: answers *)

Lemma truthy_nonempty (s : option jsstring) (t : jsstring) :
  truthy s = Some t -> s = Some t /\ t <> [].
Proof. destruct s as [[|c r]|]; try discriminate. intros [= <-]. now split. Qed.

(** X9.  When an answer is cached for the question, [getAnswerFromAI]
    returns its answer and sources without asking the model and without
    writing anything. *)
Theorem cached_answer_is_returned_without_request :
  forall (ai : jsstring -> AI.Outcome) (qid questionText : jsstring)
         (w : World) (u : User) (c : CachedEntry),
    currentUser w = Some u -> firestore_down w = false ->
    ai_answers w !! qid = Some c ->
    GeminiAnswer.getAnswerFromAI ai qid questionText w
    = (Some {| AI.answer := answer c; AI.sources := sources c |}, w, []).
Proof.
  intros ai qid questionText w u c Hu Hup Hc. unfold GeminiAnswer.getAnswerFromAI.
  now rewrite (getCachedAnswer_signed_in w u qid Hu Hup), Hc.
Qed.

Lemma cached_answer_is_returned_without_request_witness :
  GeminiAnswer.getAnswerFromAI angular_ai (js "q1") (js "What are signals?")
    (set_ai_answers {[ js "q1" := entry_q1 ]} (signedInAs (Some alice) empty_world))
  = (Some {| AI.answer := answer entry_q1; AI.sources := sources entry_q1 |},
     set_ai_answers {[ js "q1" := entry_q1 ]} (signedInAs (Some alice) empty_world), []).
Proof.
  apply (cached_answer_is_returned_without_request angular_ai (js "q1")
           (js "What are signals?")
           (set_ai_answers {[ js "q1" := entry_q1 ]} (signedInAs (Some alice) empty_world))
           alice entry_q1); [reflexivity|reflexivity|].
  apply lookup_singleton_eq.
Defined.

(** X10.  On a cache miss the model is asked once, with "Question: "
    followed by the question text.  The answer returned is never empty (an
    empty or missing text is replaced by the apology), every source
    returned has a [web] part, and the result is cached under the question
    id without audio: asking again, with any text and any model, returns
    the same answer with no request and no change. *)
Theorem fresh_answer_is_cached :
  forall (ai ai' : jsstring -> AI.Outcome) (qid questionText questionText' : jsstring)
         (w : World) (u : User) (response : AI.GenerateContentResponse),
    currentUser w = Some u -> firestore_down w = false ->
    ai_answers w !! qid = None ->
    ai (js "Question: " ++ questionText) = AI.Responded response ->
    exists result w',
      GeminiAnswer.getAnswerFromAI ai qid questionText w
      = (Some result, w', [js "Question: " ++ questionText])
      /\ AI.answer result <> []
      /\ (AI.text response = Some (AI.answer result)
          \/ AI.answer result = GeminiAnswer.fallback)
      /\ Forall (fun s => is_Some (web s)) (AI.sources result)
      /\ ai_answers w' !! qid
         = Some {| answer := AI.answer result; sources := AI.sources result;
                   questionId := qid; audioBase64 := None; timestamp := now_ms w |}
      /\ GeminiAnswer.getAnswerFromAI ai' qid questionText' w' = (Some result, w', []).
Proof.
  intros ai ai' qid questionText questionText' w u response Hu Hup Hmiss Hai.
  unfold GeminiAnswer.getAnswerFromAI at 1.
  rewrite (getCachedAnswer_signed_in w u qid Hu Hup), Hmiss, Hai.
  eexists _, _. split; [reflexivity|]. cbn [AI.answer AI.sources].
  split; [|split; [|split; [|split]]].
  - destruct (truthy (AI.text response)) as [t|] eqn:Et.
    + now apply truthy_nonempty in Et.
    + discriminate.
  - destruct (truthy (AI.text response)) as [t|] eqn:Et; [|now right].
    left. now apply truthy_nonempty in Et.
  - apply Forall_forall. intros s Hs. apply list_elem_of_In, filter_In in Hs as [_ Hs].
    unfold GeminiAnswer.has_web in Hs. destruct (web s); [now eexists|discriminate].
  - rewrite (saveAnswerToCache_signed_in w u _ Hu Hup). simpl. apply lookup_insert_eq.
  - rewrite (saveAnswerToCache_signed_in w u _ Hu Hup).
    unfold GeminiAnswer.getAnswerFromAI.
    rewrite (getCachedAnswer_signed_in _ u qid) by assumption.
    simpl. now rewrite lookup_insert_eq.
Qed.

Lemma fresh_answer_is_cached_witness :
  exists result w',
    GeminiAnswer.getAnswerFromAI angular_ai (js "q1") (js "What are signals?")
      (signedInAs (Some alice) empty_world)
    = (Some result, w', [js "Question: " ++ js "What are signals?"])
    /\ AI.answer result <> [].
Proof.
  destruct (fresh_answer_is_cached angular_ai angular_ai (js "q1")
              (js "What are signals?") (js "again")
              (signedInAs (Some alice) empty_world) alice
              {| AI.text := Some (js "## Signals"); AI.groundingChunks := None |}
              eq_refl eq_refl eq_refl eq_refl)
    as (result & w' & H1 & H2 & _).
  now exists result, w'.
Defined.

(** X11.  When the model rejects, [getAnswerFromAI] rejects: the error is
    logged, one request was sent and nothing is cached.  And when nobody is
    signed in, an answer is produced but not cached, so the same question
    asks the model again. *)
Theorem failed_or_anonymous_answer_is_not_cached :
  (forall (ai : jsstring -> AI.Outcome) (qid questionText : jsstring) (w : World),
     fst (DbService.getCachedAnswer qid w) = None ->
     ai (js "Question: " ++ questionText) = AI.Rejected ->
     exists w',
       GeminiAnswer.getAnswerFromAI ai qid questionText w
       = (None, w', [js "Question: " ++ questionText])
       /\ ai_answers w' = ai_answers w
       /\ user_questions w' = user_questions w
       /\ last (console w') = Some (Error "Gemini API Error:"))
  /\ (forall (ai : jsstring -> AI.Outcome) (qid questionText : jsstring) (w : World)
             (response : AI.GenerateContentResponse),
        currentUser w = None ->
        ai (js "Question: " ++ questionText) = AI.Responded response ->
        exists result w',
          GeminiAnswer.getAnswerFromAI ai qid questionText w
          = (Some result, w', [js "Question: " ++ questionText])
          /\ ai_answers w' = ai_answers w
          /\ snd (GeminiAnswer.getAnswerFromAI ai qid questionText w')
             = [js "Question: " ++ questionText]).
Proof.
  split.
  - intros ai qid questionText w Hmiss Hai. unfold GeminiAnswer.getAnswerFromAI.
    assert (Hsame : ai_answers (snd (DbService.getCachedAnswer qid w)) = ai_answers w
                    /\ user_questions (snd (DbService.getCachedAnswer qid w))
                       = user_questions w).
    { unfold DbService.getCachedAnswer, DbService.getValidUser.
      destruct (currentUser w); [|now split]. now destruct (firestore_down w). }
    destruct (DbService.getCachedAnswer qid w) as [cached w1]. simpl in Hmiss, Hsame.
    subst cached. rewrite Hai. eexists. split; [reflexivity|]. simpl.
    destruct Hsame as [-> ->]. repeat split. now rewrite last_snoc.
  - intros ai qid questionText w response Hu Hai.
    assert (Hget : forall w0, currentUser w0 = None ->
                     DbService.getCachedAnswer qid w0
                     = (None, log (Warn "Operation skipped: No authenticated user found.") w0)).
    { intros w0 H0. unfold DbService.getCachedAnswer, DbService.getValidUser.
      now rewrite H0. }
    assert (Hsave : forall e w0, currentUser w0 = None ->
                      DbService.saveAnswerToCache e w0
                      = log (Warn "Operation skipped: No authenticated user found.") w0).
    { intros e w0 H0. unfold DbService.saveAnswerToCache, DbService.getValidUser.
      now rewrite H0. }
    unfold GeminiAnswer.getAnswerFromAI at 1.
    rewrite (Hget w Hu), Hai, Hsave by exact Hu.
    eexists _, _. split; [reflexivity|]. split; [reflexivity|].
    unfold GeminiAnswer.getAnswerFromAI.
    rewrite Hget by exact Hu. now rewrite Hai.
Qed.

Lemma failed_or_anonymous_answer_is_not_cached_witness :
  exists result w',
    GeminiAnswer.getAnswerFromAI angular_ai (js "q1") (js "What are signals?") empty_world
    = (Some result, w', [js "Question: " ++ js "What are signals?"])
    /\ ai_answers w' = ai_answers empty_world.
Proof.
  destruct (proj2 failed_or_anonymous_answer_is_not_cached angular_ai (js "q1")
              (js "What are signals?") empty_world
              {| AI.text := Some (js "## Signals"); AI.groundingChunks := None |}
              eq_refl eq_refl)
    as (result & w' & H1 & H2 & _).
  now exists result, w'.
Defined.

(** ** geminiService.ts: audio *)

(** X12.  When the question has a cached answer without audio and the
    speech model answers with audio, [getAudioFromText] returns that audio
    and stores it in the cached entry, whose other fields are kept; the
    next call, with any text and any model, returns the stored audio
    without sending a request and without a change. *)
Theorem fetched_audio_is_cached :
  forall (tts tts' : jsstring -> GeminiService.TtsOutcome)
         (text text' : jsstring) (w : World) (u : User) (c : CachedEntry)
         (audio : jsstring),
    currentUser w = Some u -> firestore_down w = false ->
    ai_answers w !! questionId c = Some c ->
    truthy (audioBase64 c) = None ->
    tts (GeminiService.prompt ++ GeminiService.cleanText text)
    = GeminiService.TtsResponse (Some audio) ->
    audio <> [] ->
    let c' := {| answer := answer c; sources := sources c; questionId := questionId c;
                 audioBase64 := Some audio; timestamp := timestamp c |} in
    let w' := snd (GeminiService.getAudioFromText tts (questionId c) text w) in
    GeminiService.getAudioFromText tts (questionId c) text w = (Some audio, w')
    /\ ai_answers w' = <[questionId c := c']> (ai_answers w)
    /\ tts_requests w'
       = tts_requests w ++ [GeminiService.prompt ++ GeminiService.cleanText text]
    /\ GeminiService.getAudioFromText tts' (questionId c) text' w' = (Some audio, w').
Proof.
  intros tts tts' text text' w u c audio Hu Hup Hc Hnone Htts Hne c' w'.
  assert (Htr : truthy (Some audio) = Some audio).
  { destruct audio; [congruence|reflexivity]. }
  assert (H1 : GeminiService.getAudioFromText tts (questionId c) text w
               = (Some audio,
                  DbService.saveAnswerToCache c'
                    (send_tts (GeminiService.prompt ++ GeminiService.cleanText text) w))).
  { unfold GeminiService.getAudioFromText.
    rewrite (getCachedAnswer_signed_in w u _ Hu Hup), Hc. cbn [mbind option_bind].
    rewrite Hnone. cbv beta iota zeta. rewrite Htts. cbv beta iota zeta.
    now rewrite Htr. }
  subst w'. rewrite H1. cbn [snd].
  rewrite (saveAnswerToCache_signed_in _ u c') by assumption.
  split; [reflexivity|]. split; [reflexivity|]. split; [reflexivity|].
  unfold GeminiService.getAudioFromText.
  rewrite (getCachedAnswer_signed_in _ u) by assumption.
  cbn [ai_answers set_ai_answers questionId]. rewrite lookup_insert_eq.
  subst c'. cbn [mbind option_bind audioBase64]. now rewrite Htr.
Qed.

Lemma fetched_audio_is_cached_witness :
  GeminiService.getAudioFromText angular_tts (questionId entry_q1) (js "again")
    (snd (GeminiService.getAudioFromText angular_tts (questionId entry_q1)
            (js "## Signals") world_q1))
  = (Some (js "AAAAAA=="),
     snd (GeminiService.getAudioFromText angular_tts (questionId entry_q1)
            (js "## Signals") world_q1)).
Proof.
  assert (Hc : ai_answers world_q1 !! questionId entry_q1 = Some entry_q1)
    by apply lookup_singleton_eq.
  assert (Hne : js "AAAAAA==" <> []) by discriminate.
  exact (proj2 (proj2 (proj2
           (fetched_audio_is_cached angular_tts angular_tts (js "## Signals") (js "again")
              world_q1 alice entry_q1 (js "AAAAAA==")
              eq_refl eq_refl Hc eq_refl eq_refl Hne)))).
Defined.

(** X13.  Audio is stored only into an existing cached answer: when the
    lookup finds no entry (nothing cached for the question, nobody signed
    in, or Firestore failing), the audio the speech model returns is handed
    back but no answer is written, and when the speech model rejects or
    answers without audio the call rejects after logging, again without
    writing. *)
Theorem audio_without_entry_is_not_cached :
  forall (tts : jsstring -> GeminiService.TtsOutcome) (qid text : jsstring) (w : World),
    let request := GeminiService.prompt ++ GeminiService.cleanText text in
    let w' := snd (GeminiService.getAudioFromText tts qid text w) in
    (fst (DbService.getCachedAnswer qid w) = None ->
     ai_answers w' = ai_answers w
     /\ tts_requests w' = tts_requests w ++ [request]
     /\ fst (GeminiService.getAudioFromText tts qid text w)
        = match tts request with
          | GeminiService.TtsResponse data => truthy data
          | GeminiService.TtsRejected => None
          end)
    /\ (truthy (fst (DbService.getCachedAnswer qid w) ≫= audioBase64) = None ->
        match tts request with
        | GeminiService.TtsResponse data => truthy data = None
        | GeminiService.TtsRejected => True
        end ->
        fst (GeminiService.getAudioFromText tts qid text w) = None
        /\ ai_answers w' = ai_answers w
        /\ last (console w') = Some (Error "TTS Error:")).
Proof.
  intros tts qid text w request w'. subst w'.
  assert (Hsame : ai_answers (snd (DbService.getCachedAnswer qid w)) = ai_answers w).
  { unfold DbService.getCachedAnswer, DbService.getValidUser.
    destruct (currentUser w); [|reflexivity]. now destruct (firestore_down w). }
  pose proof (getCachedAnswer_tts_requests qid w) as Hreq.
  unfold GeminiService.getAudioFromText. fold request.
  destruct (DbService.getCachedAnswer qid w) as [cached w1]. cbn [fst snd] in *.
  split.
  - intros ->. cbn [mbind option_bind truthy].
    destruct (tts request) as [|data]; cbn [fst snd].
    + simpl. now rewrite Hsame, Hreq.
    + destruct (truthy data) as [a|]; simpl; now rewrite Hsame, Hreq.
  - intros -> Hfail. destruct (tts request) as [|data]; cbn [fst snd].
    + simpl. rewrite Hsame. repeat split. now rewrite last_snoc.
    + rewrite Hfail. simpl. rewrite Hsame. repeat split. now rewrite last_snoc.
Qed.

Lemma audio_without_entry_is_not_cached_witness :
  ai_answers (snd (GeminiService.getAudioFromText angular_tts (js "q1") (js "## Signals")
                     (signedInAs (Some alice) empty_world)))
  = ai_answers (signedInAs (Some alice) empty_world).
Proof.
  apply (proj1 (audio_without_entry_is_not_cached angular_tts (js "q1") (js "## Signals")
                  (signedInAs (Some alice) empty_world))).
  reflexivity.
Defined.

(** X14.  Cleaning never lengthens a text and cleaning twice is cleaning
    once: the clean text has no markup, no double newline and at most 1500
    code units left to remove. *)
Theorem cleanText_idempotent :
  forall text : jsstring,
    GeminiService.cleanText (GeminiService.cleanText text) = GeminiService.cleanText text
    /\ (length (GeminiService.cleanText text) <= length text)%nat.
Proof.
  intros text.
  destruct (cleanText_spec text) as (Hlen & _ & _ & _ & Hmark & Hnn).
  assert (Hrm : forall t, Forall (fun c => GeminiService.is_markup c = false) t ->
                          GeminiService.remove_markup t = t).
  { unfold GeminiService.remove_markup.
    induction 1 as [|c t Hc _ IH]; simpl; [reflexivity|]. now rewrite Hc, IH. }
  assert (Hrep : forall t, GeminiService.has_double_newline t = false ->
                           GeminiService.replace_double_newlines t = t).
  { induction t as [|x|x y r IHr IHyr] using list_ind2; intros H; try reflexivity.
    rewrite replace_double_newlines_cons2. rewrite has_double_newline_cons in H.
    apply orb_false_iff in H as [H1 H2]. simpl in H1. rewrite H1.
    now rewrite IHyr. }
  assert (Hreplen : forall t, length (GeminiService.replace_double_newlines t) = length t).
  { induction t as [|x|x y r IHr IHyr] using list_ind2; try reflexivity.
    rewrite replace_double_newlines_cons2.
    destruct ((x =? 10) && (y =? 10)); simpl in *; now rewrite ?IHr, ?IHyr. }
  split.
  - unfold GeminiService.cleanText at 1. rewrite (Hrm _ Hmark), (Hrep _ Hnn).
    now apply take_ge.
  - unfold GeminiService.cleanText. rewrite length_take, Hreplen.
    unfold GeminiService.remove_markup.
    pose proof (filter_length_le (fun c => negb (GeminiService.is_markup c)) text). lia.
Qed.

(** ** decodeAudioData *)

Lemma int16_range (lo hi : byte) : (-32768 <= int16 lo hi <= 32767)%Z.
Proof.
  unfold int16. pose proof (Byte.to_N_bounded lo). pose proof (Byte.to_N_bounded hi).
  destruct (Z.ltb_spec (Z.of_N (Byte.to_N lo) + 256 * Z.of_N (Byte.to_N hi)) 32768); lia.
Qed.

Lemma int16_samples_spec (data : list byte) :
  length (int16_samples data) = (length data / 2)%nat
  /\ Forall (fun v => (-32768 <= v <= 32767)%Z) (int16_samples data).
Proof.
  induction data as [|x|x y r [IHlen IHall] _] using list_ind2.
  - split; [reflexivity|constructor].
  - split; [reflexivity|constructor].
  - cbn [int16_samples length]. split.
    + rewrite IHlen. nlia.
    + constructor; [apply int16_range|exact IHall].
Qed.

(** X15.  [decodeAudioData] rejects exactly the payloads with no byte or
    with an odd number of bytes; otherwise the buffer has one frame per
    two bytes, at least one frame, and every sample is a 16-bit signed
    value, so every channel value lies in [-1, 1). *)
Theorem decodeAudioData_frames :
  forall data : list byte,
    (decodeAudioData data = None <-> data = [] \/ Nat.Odd (length data))
    /\ (forall b, decodeAudioData data = Some b ->
          (2 * length (channelData b) = length data)%nat
          /\ (1 <= duration b)%Z
          /\ Forall (fun v => (-32768 <= v <= 32767)%Z) (channelData b)).
Proof.
  intros data. destruct (int16_samples_spec data) as [Hlen Hall].
  unfold decodeAudioData, duration.
  destruct (Nat.even (length data)) eqn:Heven; simpl.
  - apply Nat.even_spec in Heven as [k Hk].
    destruct (Nat.eqb_spec (length data) 0) as [H0|H0]; simpl.
    + split; [|discriminate]. split; [|reflexivity].
      intros _. left. now apply length_zero_iff_nil.
    + split.
      * split; [discriminate|]. intros [->|[j Hj]]; [now simpl in H0|lia].
      * intros b [= <-]. simpl. rewrite Hlen, Hk.
        replace (2 * k / 2)%nat with k by nlia. repeat split; [lia|exact Hall].
  - split; [|discriminate]. split; [|reflexivity]. intros _. right.
    apply Nat.odd_spec. unfold Nat.odd. now rewrite Heven.
Qed.

Lemma decodeAudioData_frames_witness :
  (2 * length (channelData (VoiceAssistant.silence 3)) = length (repeat x00 6))%nat.
Proof.
  apply (proj2 (decodeAudioData_frames (repeat x00 6)) (VoiceAssistant.silence 3)).
  reflexivity.
Defined.

(** ** The clip player: what its flags mean *)

Lemma stop_node_nonempty (n : nat) (ns : list App.SourceNode) :
  App.stop_node n ns <> [] -> ns <> [].
Proof.
  intros H ->. apply H. unfold App.stop_node. now rewrite lookup_nil.
Qed.

Lemma player_consistent_stopAudio (s : App.Player) :
  player_consistent s -> player_consistent (App.stopAudio s).
Proof.
  intros (_ & _ & Hctx & Hdec). repeat split; simpl.
  - discriminate.
  - discriminate.
  - intros H. apply Hctx. destruct (App.audioSourceRef s); [|exact H].
    now apply stop_node_nonempty in H.
  - exact Hdec.
Qed.

Lemma player_consistent_playAudio (q t : jsstring) (s : App.Player) :
  player_consistent s -> player_consistent (App.playAudio q t s).
Proof.
  intros H. apply player_consistent_stopAudio in H as (_ & _ & Hctx & Hdec).
  unfold App.playAudio. repeat split; cbn [App.audioSourceRef App.isPlaying
    App.nodes App.audioContextRef App.pending].
  - discriminate.
  - discriminate.
  - exact Hctx.
  - intros k q' decoded Hk. apply lookup_app_Some in Hk as [Hk|[_ Hk]].
    + now apply (Hdec k q' decoded).
    + destruct (k - length (App.pending (App.stopAudio s)))%nat as [|[|]];
        discriminate Hk.
Qed.

Lemma set_invocation_lookup (k j : nat) (t t' : App.Invocation) (s : App.Player) :
  App.pending (App.set_invocation k t s) !! j = Some t' ->
  t' = t \/ App.pending s !! j = Some t'.
Proof.
  simpl. destruct (decide (k = j)) as [<-|Hne].
  - intros H. destruct (decide (k < length (App.pending s))%nat) as [Hlt|Hge].
    + rewrite list_lookup_insert_eq in H by exact Hlt. left. congruence.
    + rewrite list_insert_ge in H by lia. now right.
  - rewrite list_lookup_insert_ne by exact Hne. now right.
Qed.

Lemma player_consistent_frame (s s' : App.Player) :
  App.audioSourceRef s' = App.audioSourceRef s ->
  App.activeAudioQuestionIdRef s' = App.activeAudioQuestionIdRef s ->
  App.nodes s' = App.nodes s ->
  (App.isPlaying s' = true -> App.isPlaying s = true) ->
  (App.audioContextRef s = true -> App.audioContextRef s' = true) ->
  (forall k q decoded,
     App.pending s' !! k = Some (App.AwaitDecode q decoded) ->
     App.audioContextRef s' = true
     \/ App.pending s !! k = Some (App.AwaitDecode q decoded)) ->
  player_consistent s -> player_consistent s'.
Proof.
  intros Href Hact Hnodes Hplay Hc Hp (H1 & H2 & H3 & H4). repeat split.
  - rewrite Href, Hact, Hnodes. exact H1.
  - rewrite Href. intros H. apply H2, Hplay, H.
  - rewrite Hnodes. intros H. apply Hc, H3, H.
  - intros k q decoded Hk. destruct (Hp k q decoded Hk) as [H|H]; [exact H|].
    apply Hc. now apply (H4 k q decoded).
Qed.

Lemma player_consistent_fetch_settled (k : nat) (fetched : option jsstring)
    (s : App.Player) :
  player_consistent s -> player_consistent (App.fetch_settled k fetched s).
Proof.
  intros H. unfold App.fetch_settled.
  destruct (App.pending s !! k) as [[q|q d|]|]; try exact H.
  destruct fetched as [base64Audio|].
  - destruct (negb (App.is_active q s)).
    + revert H. apply player_consistent_frame; try reflexivity; auto.
      intros j q' d' Hj. apply set_invocation_lookup in Hj as [Hj|Hj];
        [discriminate|now right].
    + destruct (decode base64Audio) as [data|].
      * revert H. apply player_consistent_frame; try reflexivity; auto.
      * revert H. apply player_consistent_frame; try reflexivity; auto.
  - revert H. apply player_consistent_frame; try reflexivity; auto.
    intros j q' d' Hj. apply set_invocation_lookup in Hj as [Hj|Hj];
      [discriminate|now right].
Qed.

Lemma player_consistent_decode_settled (k : nat) (s : App.Player) :
  player_consistent s -> player_consistent (App.decode_settled k s).
Proof.
  intros H. unfold App.decode_settled.
  destruct (App.pending s !! k) as [[q|q [audioBuffer|]|]|] eqn:Hk; try exact H.
  - destruct (App.is_active q s) eqn:Hq; cbn [negb].
    + destruct H as (H1 & H2 & H3 & H4). apply is_active_true in Hq.
      repeat split; cbn [App.finally App.start_source App.set_invocation
        App.audioSourceRef App.nodes App.activeAudioQuestionIdRef App.isPlaying
        App.audioContextRef App.pending App.owner App.stopped].
      * intros n [= <-]. eexists. split; [apply list_lookup_middle; reflexivity|].
        simpl. now split.
      * intros _. now eexists.
      * intros _. now apply (H4 k q (Some audioBuffer)).
      * intros j q' d' Hj. now apply (H4 k q (Some audioBuffer)).
    + revert H. apply player_consistent_frame; try reflexivity; auto.
      intros j q' d' Hj. apply set_invocation_lookup in Hj as [Hj|Hj];
        [discriminate|now right].
  - revert H. apply player_consistent_frame; try reflexivity; auto.
    intros j q' d' Hj. apply set_invocation_lookup in Hj as [Hj|Hj];
      [discriminate|now right].
Qed.

Lemma player_consistent_step (e : App.Event) (s : App.Player) :
  player_consistent s -> player_consistent (App.step e s).
Proof.
  intros H. destruct e as [q t|k fetched|k| |n]; cbn [App.step].
  - now apply player_consistent_playAudio.
  - now apply player_consistent_fetch_settled.
  - now apply player_consistent_decode_settled.
  - now apply player_consistent_stopAudio.
  - unfold App.ended. destruct (App.nodes s !! n) as [node|]; [|exact H].
    revert H. apply player_consistent_frame; try reflexivity; auto.
    simpl. now destruct (App.is_active (App.owner node) s).
Qed.

(** X16.  In every state the clip player reaches, the current source (if
    any) exists, has not been stopped and belongs to the active question
    id; the playing flag is only up while there is a current source; and
    no source exists, and no decode is pending, before the audio context
    has been created. *)
Theorem player_flags_are_consistent :
  forall es : list App.Event, player_consistent (App.run es App.initial).
Proof.
  intros es. assert (H : player_consistent App.initial).
  { repeat split; simpl; try discriminate; try congruence. }
  revert H. generalize App.initial.
  induction es as [|e es IH]; intros s H; [exact H|].
  rewrite player_run_cons. now apply IH, player_consistent_step.
Qed.

Lemma is_active_idle (q : jsstring) (s : App.Player) :
  App.activeAudioQuestionIdRef s = None -> App.is_active q s = false.
Proof. intros H. unfold App.is_active. rewrite H. now apply bool_decide_false. Qed.

Lemma is_active_same (q : jsstring) (s : App.Player) :
  App.activeAudioQuestionIdRef s = Some q -> App.is_active q s = true.
Proof. intros H. unfold App.is_active. rewrite H. now apply bool_decide_true. Qed.

Lemma completion_keeps_loading_when_idle (e : App.Event) (s : App.Player) :
  App.activeAudioQuestionIdRef s = None ->
  App.is_completion e = true ->
  App.isAudioLoading (App.step e s) = App.isAudioLoading s
  /\ App.nodes (App.step e s) = App.nodes s.
Proof.
  intros Hidle He.
  destruct e as [q t|k fetched|k| |n]; try discriminate; cbn [App.step].
  - unfold App.fetch_settled.
    destruct (App.pending s !! k) as [[q|q d|]|]; try (split; reflexivity).
    rewrite (is_active_idle q s Hidle). cbn [negb].
    destruct fetched; unfold App.finally;
      cbn [App.isAudioLoading App.nodes App.set_invocation App.catch];
      unfold App.is_active; cbn [App.activeAudioQuestionIdRef App.set_invocation App.catch];
      rewrite Hidle, bool_decide_false by discriminate; now split.
  - unfold App.decode_settled.
    destruct (App.pending s !! k) as [[q|q [b|]|]|]; try (split; reflexivity).
    + rewrite (is_active_idle q s Hidle). cbn [negb]. unfold App.finally;
        cbn [App.isAudioLoading App.nodes App.set_invocation];
        unfold App.is_active; cbn [App.activeAudioQuestionIdRef App.set_invocation];
        rewrite Hidle, bool_decide_false by discriminate; now split.
    + unfold App.finally;
        cbn [App.isAudioLoading App.nodes App.set_invocation App.catch];
        unfold App.is_active; cbn [App.activeAudioQuestionIdRef App.set_invocation App.catch];
        rewrite Hidle, bool_decide_false by discriminate; now split.
  - unfold App.ended. destruct (App.nodes s !! n); now split.
Qed.

(** X17.  [stopAudio] does not touch the loading flag, and a call whose
    fetch settles after a stop finds the token cleared and leaves the flag
    alone: once [stopAudio] runs while a fetch is pending, the loading flag
    stays up, and no source is started, whatever then completes, until
    [playAudio] is called again. *)
Theorem loading_flag_stays_up_after_stop :
  forall (s : App.Player) (q text : jsstring) (completions : list App.Event),
    forallb App.is_completion completions = true ->
    let s' := App.run (App.PlayAudio q text :: App.StopAudio :: completions) s in
    App.isAudioLoading s' = true
    /\ App.isPlaying s' = false
    /\ App.activeAudioQuestionIdRef s' = None
    /\ length (App.nodes s') = length (App.nodes s).
Proof.
  intros s q text completions Hcs s'. subst s'.
  rewrite !player_run_cons. cbn [App.step].
  set (s1 := App.stopAudio (App.playAudio q text s)).
  assert (H1 : App.isAudioLoading s1 = true /\ App.isPlaying s1 = false
               /\ App.activeAudioQuestionIdRef s1 = None
               /\ length (App.nodes s1) = length (App.nodes s)).
  { repeat split. subst s1. simpl.
    destruct (App.audioSourceRef s); [apply stop_node_length|reflexivity]. }
  clearbody s1. revert s1 H1.
  induction completions as [|e cs IH]; intros s1 H1; [exact H1|].
  simpl in Hcs. apply andb_true_iff in Hcs as [He Hcs].
  rewrite player_run_cons. apply IH; [exact Hcs|].
  destruct H1 as (Hl & Hp & Hi & Hn).
  destruct (completion_keeps_loading_when_idle e s1 Hi He) as [Hl' Hn'].
  rewrite Hl', Hn', completion_keeps_token by exact He.
  repeat split; try assumption.
  destruct e as [? ?|k fetched|k| |n]; try discriminate; cbn [App.step].
  - unfold App.fetch_settled. repeat case_match; simpl; assumption.
  - unfold App.decode_settled.
    destruct (App.pending s1 !! k) as [[q'|q' [b|]|]|]; try assumption.
    rewrite (is_active_idle q' s1 Hi). simpl. assumption.
  - unfold App.ended. repeat case_match; simpl; try assumption; reflexivity.
Qed.

Lemma loading_flag_stays_up_after_stop_witness :
  App.isAudioLoading
    (App.run [App.PlayAudio (js "q1") (js "one"); App.StopAudio;
              App.FetchSettled 0 (Some (js "AAAAAA=="))] App.initial)
  = true.
Proof.
  exact (proj1 (loading_flag_stays_up_after_stop App.initial (js "q1") (js "one")
                  [App.FetchSettled 0 (Some (js "AAAAAA=="))] eq_refl)).
Defined.

Lemma settle_active_call (s : App.Player) (k : nat) (q base64Audio : jsstring)
    (data : list byte) (b : AudioBuffer) :
  App.pending s !! k = Some (App.AwaitFetch q) ->
  App.activeAudioQuestionIdRef s = Some q ->
  decode base64Audio = Some data -> decodeAudioData data = Some b ->
  let s' := App.decode_settled k (App.fetch_settled k (Some base64Audio) s) in
  App.nodes s'
  = App.nodes s ++ [{| App.owner := q; App.buffer := b; App.stopped := false |}]
  /\ App.activeAudioQuestionIdRef s' = Some q
  /\ App.isPlaying s' = true
  /\ App.audioSourceRef s' = Some (length (App.nodes s))
  /\ (forall j, j <> k -> App.pending s' !! j = App.pending s !! j).
Proof.
  intros Hk Hq Hd Hb s'. subst s'.
  assert (Hlt : (k < length (App.pending s))%nat) by now apply lookup_lt_Some in Hk.
  unfold App.fetch_settled. rewrite Hk, (is_active_same q s Hq), Hd, Hb. cbn [negb].
  unfold App.decode_settled.
  cbn [App.pending App.set_invocation App.create_context].
  rewrite list_lookup_insert_eq by exact Hlt.
  rewrite (is_active_same q (App.set_invocation k _ (App.create_context s)))
    by exact Hq.
  cbn [negb].
  cbn [App.finally App.start_source App.set_invocation App.create_context
         App.nodes App.activeAudioQuestionIdRef App.isPlaying App.audioSourceRef
         App.pending].
  split; [reflexivity|]. split; [simpl; exact Hq|]. split; [reflexivity|].
  split; [reflexivity|].
  intros j Hj. now rewrite !list_lookup_insert_ne by congruence.
Qed.

(** X18.  The token tells question ids apart, not calls: when [playAudio]
    is called twice for the same id before the first fetch settles and
    both fetches bring decodable audio, both clips are started and neither
    is stopped, so the two play at once; only the second is the current
    source that a later stop reaches. *)
Theorem same_id_calls_both_start :
  forall (s : App.Player) (q text1 text2 audio1 audio2 : jsstring)
         (data1 data2 : list byte) (b1 b2 : AudioBuffer),
    decode audio1 = Some data1 -> decodeAudioData data1 = Some b1 ->
    decode audio2 = Some data2 -> decodeAudioData data2 = Some b2 ->
    let k := length (App.pending s) in
    let s' := App.run [App.PlayAudio q text1; App.PlayAudio q text2;
                       App.FetchSettled k (Some audio1); App.DecodeSettled k;
                       App.FetchSettled (S k) (Some audio2); App.DecodeSettled (S k)] s in
    App.nodes s'
    = App.nodes (App.stopAudio s)
      ++ [{| App.owner := q; App.buffer := b1; App.stopped := false |};
          {| App.owner := q; App.buffer := b2; App.stopped := false |}]
    /\ App.isPlaying s' = true
    /\ App.audioSourceRef s' = Some (S (length (App.nodes s)))
    /\ map App.stopped (App.nodes (App.stopAudio s'))
       = map App.stopped (App.nodes (App.stopAudio s)) ++ [false; true].
Proof.
  intros s q text1 text2 audio1 audio2 data1 data2 b1 b2 Hd1 Hb1 Hd2 Hb2 k s'.
  subst s'. rewrite !player_run_cons. cbn [App.step].
  change (App.run [] ?x) with x.
  set (s2 := App.playAudio q text2 (App.playAudio q text1 s)).
  assert (Hp2 : App.pending s2
                = App.pending s ++ [App.AwaitFetch q; App.AwaitFetch q]).
  { subst s2. simpl. now rewrite <- app_assoc. }
  assert (Hn2 : App.nodes s2 = App.nodes (App.stopAudio s)) by reflexivity.
  assert (Ha2 : App.activeAudioQuestionIdRef s2 = Some q) by reflexivity.
  assert (Hk : App.pending s2 !! k = Some (App.AwaitFetch q)).
  { rewrite Hp2. now apply list_lookup_middle. }
  assert (Hk' : App.pending s2 !! S k = Some (App.AwaitFetch q)).
  { rewrite Hp2. rewrite lookup_app_r by (subst k; lia).
    now replace (S k - length (App.pending s))%nat with 1%nat by (subst k; lia). }
  destruct (settle_active_call s2 k q audio1 data1 b1 Hk Ha2 Hd1 Hb1)
    as (N3 & A3 & _ & _ & P3).
  set (s4 := App.decode_settled k (App.fetch_settled k (Some audio1) s2)) in *.
  assert (Hk4 : App.pending s4 !! S k = Some (App.AwaitFetch q)).
  { rewrite P3 by lia. exact Hk'. }
  destruct (settle_active_call s4 (S k) q audio2 data2 b2 Hk4 A3 Hd2 Hb2)
    as (N5 & A5 & I5 & R5 & _).
  set (s6 := App.decode_settled (S k) (App.fetch_settled (S k) (Some audio2) s4)) in *.
  assert (Hlen : length (App.nodes (App.stopAudio s)) = length (App.nodes s)).
  { simpl. destruct (App.audioSourceRef s); [apply stop_node_length|reflexivity]. }
  assert (Hnodes : App.nodes s6
                   = App.nodes (App.stopAudio s)
                     ++ [{| App.owner := q; App.buffer := b1; App.stopped := false |};
                         {| App.owner := q; App.buffer := b2; App.stopped := false |}]).
  { rewrite N5, N3, Hn2. now rewrite <- app_assoc. }
  split; [exact Hnodes|]. split; [exact I5|]. split.
  - rewrite R5, N3, Hn2, length_app, Hlen. simpl. f_equal. lia.
  - cbn [App.stopAudio App.nodes]. rewrite R5.
    unfold App.stop_node. rewrite Hnodes, N3, Hn2.
    set (old := App.nodes (App.stopAudio s)).
    replace (length (old ++ [{| App.owner := q; App.buffer := b1; App.stopped := false |}]))
      with (length old + 1)%nat by (rewrite length_app; reflexivity).
    rewrite lookup_app_r by lia.
    replace (length old + 1 - length old)%nat with 1%nat by lia. cbn [lookup list_lookup].
    rewrite insert_app_r_alt by lia.
    replace (length old + 1 - length old)%nat with 1%nat by lia.
    now rewrite map_app.
Qed.

Lemma same_id_calls_both_start_witness :
  App.isPlaying
    (App.run [App.PlayAudio (js "q1") (js "one"); App.PlayAudio (js "q1") (js "one");
              App.FetchSettled (length (App.pending App.initial)) (Some (js "AAAAAA=="));
              App.DecodeSettled (length (App.pending App.initial));
              App.FetchSettled (S (length (App.pending App.initial))) (Some (js "AAAAAA=="));
              App.DecodeSettled (S (length (App.pending App.initial)))] App.initial)
  = true.
Proof.
  exact (proj1 (proj2 (same_id_calls_both_start App.initial (js "q1") (js "one") (js "one")
                         (js "AAAAAA==") (js "AAAAAA==")
                         (repeat x00 4) (repeat x00 4)
                         (VoiceAssistant.silence 2) (VoiceAssistant.silence 2)
                         eq_refl eq_refl eq_refl eq_refl))).
Defined.

(** ** The live session: tracked sources and start times *)

Lemma stop_all_Forall (P : VoiceAssistant.SourceNode -> Prop) (sources : gset nat)
    (g : list VoiceAssistant.SourceNode) :
  (forall node, P node -> P (VoiceAssistant.stop_node node)) ->
  Forall P g -> Forall P (VoiceAssistant.stop_all sources g).
Proof.
  intros Hstop Hg. apply Forall_lookup. intros i node Hi.
  unfold VoiceAssistant.stop_all in Hi. rewrite list_lookup_imap in Hi.
  destruct (g !! i) as [node0|] eqn:E; [|discriminate]. simpl in Hi.
  rewrite Forall_lookup in Hg. specialize (Hg i node0 E).
  destruct (bool_decide (i ∈ sources)); injection Hi as <-; auto.
Qed.

Lemma onmessage_shape (now : Z) (msg : VoiceAssistant.LiveServerMessage)
    (s : VoiceAssistant.Assistant) :
  let s' := fst (VoiceAssistant.onmessage now msg s) in
  let s0 := VoiceAssistant.clock_max now s in
  s' = s \/ s' = s0 \/ s' = VoiceAssistant.interrupt s
  \/ exists b, s' = VoiceAssistant.schedule b s0
               \/ s' = VoiceAssistant.interrupt (VoiceAssistant.schedule b s0).
Proof.
  unfold VoiceAssistant.onmessage, VoiceAssistant.audio_part.
  destruct (VoiceAssistant.base64Audio msg) as [audio|]; [|now left].
  destruct (truthy audio) as [base64|].
  - destruct (decode base64 ≫= decodeAudioData) as [b|]; [|now (right; left)].
    do 3 right. exists b.
    destruct (VoiceAssistant.is_interrupted msg); simpl; [now right|now left].
  - destruct (VoiceAssistant.is_interrupted msg); simpl; [now (do 2 right; left)|now left].
Qed.

Lemma session_consistent_cleared (s s' : VoiceAssistant.Assistant) :
  VoiceAssistant.sourcesRef s' = ∅ ->
  VoiceAssistant.nextStartTimeRef s' = 0%Z ->
  VoiceAssistant.graph s' = VoiceAssistant.stop_all (VoiceAssistant.sourcesRef s)
                              (VoiceAssistant.graph s) ->
  session_consistent s -> session_consistent s'.
Proof.
  intros Hs Hn Hg (_ & _ & Hall). repeat split.
  - intros n Hin. rewrite Hs in Hin. now apply not_elem_of_empty in Hin.
  - rewrite Hn. lia.
  - rewrite Hg. now apply stop_all_Forall.
Qed.

Lemma session_consistent_frame (s s' : VoiceAssistant.Assistant) :
  VoiceAssistant.sourcesRef s' ⊆ VoiceAssistant.sourcesRef s ->
  VoiceAssistant.graph s' = VoiceAssistant.graph s ->
  (VoiceAssistant.nextStartTimeRef s <= VoiceAssistant.nextStartTimeRef s')%Z ->
  session_consistent s -> session_consistent s'.
Proof.
  intros Hsub Hg Hn (Hlive & Hnext & Hall). repeat split.
  - intros n Hin. rewrite Hg. apply Hlive, Hsub, Hin.
  - lia.
  - now rewrite Hg.
Qed.

Lemma session_consistent_schedule (b : AudioBuffer) (s : VoiceAssistant.Assistant) :
  session_consistent s -> session_consistent (VoiceAssistant.schedule b s).
Proof.
  intros (Hlive & Hnext & Hall). pose proof (duration_nonneg b). repeat split; simpl.
  - intros n Hin. apply elem_of_union in Hin as [Hin|Hin].
    + apply elem_of_singleton in Hin as ->. eexists.
      split; [apply list_lookup_middle; reflexivity|reflexivity].
    + destruct (Hlive n Hin) as (node & Hnode & Hst). exists node.
      split; [now apply lookup_app_l_Some|exact Hst].
  - lia.
  - apply Forall_app. split; [exact Hall|]. now repeat constructor.
Qed.

Lemma session_consistent_step (e : VoiceAssistant.Event) (s : VoiceAssistant.Assistant) :
  session_consistent s -> session_consistent (VoiceAssistant.step e s).
Proof.
  intros H. destruct e as [o|now msg| | |n]; cbn [VoiceAssistant.step].
  - destruct (VoiceAssistant.isActive s).
    + revert H. now apply session_consistent_cleared.
    + revert H. apply session_consistent_frame; destruct o; simpl; reflexivity.
  - assert (H0 : session_consistent (VoiceAssistant.clock_max now s)).
    { revert H. apply session_consistent_frame; simpl; [reflexivity|reflexivity|lia]. }
    destruct (onmessage_shape now msg s) as [-> | [-> | [-> | [b [-> | ->]]]]].
    + exact H.
    + exact H0.
    + revert H. now apply session_consistent_cleared.
    + now apply session_consistent_schedule.
    + apply (session_consistent_cleared (VoiceAssistant.schedule b
                                           (VoiceAssistant.clock_max now s)));
        [reflexivity|reflexivity|reflexivity|].
      now apply session_consistent_schedule.
  - revert H. apply session_consistent_frame; simpl; reflexivity.
  - revert H. apply session_consistent_frame; simpl; reflexivity.
  - revert H. apply session_consistent_frame; simpl;
      [apply subseteq_difference_l|..]; reflexivity.
Qed.

(** X19.  In every state the session controller reaches, whatever is
    clicked, received, closed or ended and at whatever clock readings,
    every tracked source is a source that was started and has not been
    stopped, the next start time is not negative, and no source was ever
    started at a negative time. *)
Theorem session_sources_are_live :
  forall es : list VoiceAssistant.Event,
    session_consistent (VoiceAssistant.run es VoiceAssistant.initial).
Proof.
  intros es. assert (H : session_consistent VoiceAssistant.initial).
  { repeat split; simpl; [|lia|constructor].
    intros n Hin. now apply not_elem_of_empty in Hin. }
  revert H. generalize VoiceAssistant.initial.
  induction es as [|e es IH]; intros s H; [exact H|].
  rewrite assistant_run_cons. now apply IH, session_consistent_step.
Qed.

(** X20.  A message whose audio part cannot be handled (a model turn
    without parts, a payload that is not base64, an odd number of bytes, no
    frame) makes the callback throw: no source is scheduled, tracked or
    stopped, and the interruption flag of the same message is not looked
    at.  The next start time has by then been raised to the clock reading
    when the payload was a non-empty string. *)
Theorem malformed_payload_aborts_callback :
  forall (s : VoiceAssistant.Assistant) (now : Z)
         (msg : VoiceAssistant.LiveServerMessage),
    VoiceAssistant.payload msg = VoiceAssistant.Malformed ->
    let s' := fst (VoiceAssistant.onmessage now msg s) in
    snd (VoiceAssistant.onmessage now msg s) = VoiceAssistant.Threw
    /\ VoiceAssistant.graph s' = VoiceAssistant.graph s
    /\ VoiceAssistant.sourcesRef s' = VoiceAssistant.sourcesRef s
    /\ VoiceAssistant.nextStartTimeRef s'
       = match VoiceAssistant.base64Audio msg with
         | Some _ => Z.max (VoiceAssistant.nextStartTimeRef s) now
         | None => VoiceAssistant.nextStartTimeRef s
         end.
Proof.
  intros s now msg Hp s'. subst s'.
  unfold VoiceAssistant.payload in Hp.
  unfold VoiceAssistant.onmessage, VoiceAssistant.audio_part.
  destruct (VoiceAssistant.base64Audio msg) as [audio|]; [|now repeat split].
  destruct (truthy audio) as [base64|]; [|discriminate].
  destruct (decode base64 ≫= decodeAudioData) as [b|]; [discriminate|].
  now repeat split.
Qed.

Lemma malformed_payload_aborts_callback_witness :
  snd (VoiceAssistant.onmessage 3
         {| VoiceAssistant.serverContent := Some
              {| VoiceAssistant.modelTurn := Some
                   {| VoiceAssistant.parts := Some
                        [{| VoiceAssistant.inlineData := Some
                              {| VoiceAssistant.data := Some (js "AAAA") |} |}] |};
                 VoiceAssistant.interrupted := Some true |} |}
         VoiceAssistant.initial)
  = VoiceAssistant.Threw.
Proof.
  apply (malformed_payload_aborts_callback VoiceAssistant.initial 3%Z). reflexivity.
Defined.

(** ** The microphone frames *)

Lemma ToInt16_range (n : Z) : (-32768 <= Microphone.ToInt16 n <= 32767)%Z.
Proof.
  unfold Microphone.ToInt16.
  destruct (Z.ltb_spec (n mod 65536) 32768); Z.to_euclidean_division_equations; lia.
Qed.

Lemma int16_of_bytes (v : Z) :
  (-32768 <= v <= 32767)%Z ->
  exists lo hi, Microphone.int16_bytes v = [lo; hi] /\ int16 lo hi = v.
Proof.
  intros Hv. unfold Microphone.int16_bytes. eexists _, _. split; [reflexivity|].
  unfold int16. rewrite !to_N_u8 by nlia.
  match goal with |- context [(?a <? 32768)%Z] => destruct (Z.ltb_spec a 32768) end; nlia.
Qed.

Lemma int16_samples_of_bytes (vs : list Z) :
  Forall (fun v => (-32768 <= v <= 32767)%Z) vs ->
  int16_samples (flat_map Microphone.int16_bytes vs) = vs
  /\ length (flat_map Microphone.int16_bytes vs) = (2 * length vs)%nat.
Proof.
  induction 1 as [|v vs Hv _ [IH1 IH2]]; [now split|].
  destruct (int16_of_bytes v Hv) as (lo & hi & Hb & Hi).
  cbn [flat_map]. rewrite Hb. cbn [app int16_samples length].
  rewrite IH1, IH2, Hi. split; [reflexivity|lia].
Qed.

(** X21.  While [sessionRef] holds a session, a microphone frame is
    forwarded as base64 of two bytes per sample; decoding that string and
    reading the bytes the way [decodeAudioData] does gives back exactly
    the quantised samples.  While [sessionRef] is null nothing is
    forwarded. *)
Theorem microphone_frame_round_trip :
  forall (s : VoiceAssistant.Assistant) (inputData : list Microphone.Float32),
    (VoiceAssistant.sessionRef s = None -> Microphone.onaudioprocess s inputData = None)
    /\ (VoiceAssistant.sessionRef s <> None ->
        exists data bytes,
          Microphone.onaudioprocess s inputData = Some data
          /\ canonical_b64 data = true
          /\ decode data = Some bytes
          /\ length bytes = (2 * length inputData)%nat
          /\ int16_samples bytes = map Microphone.quantize inputData).
Proof.
  intros s inputData. unfold Microphone.onaudioprocess. split.
  - now intros ->.
  - intros Hs. destruct (VoiceAssistant.sessionRef s) as [session|]; [|congruence].
    set (bytes := flat_map Microphone.int16_bytes (map Microphone.quantize inputData)).
    destruct (int16_samples_of_bytes (map Microphone.quantize inputData))
      as [Hsamples Hlen].
    { apply Forall_forall. intros v Hv. apply list_elem_of_fmap in Hv as (x & -> & _).
      apply ToInt16_range. }
    eexists _, bytes. split; [apply encode_total|]. split; [|split; [|split]].
    + rewrite <- (length_map Byte.to_N bytes).
      apply encoding_is_canonical, to_N_lt_256.
    + apply decode_encoded.
    + subst bytes. now rewrite Hlen, length_map.
    + exact Hsamples.
Qed.

Lemma microphone_frame_round_trip_witness :
  exists data bytes,
    Microphone.onaudioprocess
      (VoiceAssistant.startSession (VoiceAssistant.Connected 1) VoiceAssistant.initial)
      [Microphone.Finite 1 (-1); Microphone.Finite (-3) (-2)]
    = Some data
    /\ canonical_b64 data = true
    /\ decode data = Some bytes
    /\ length bytes = (2 * length [Microphone.Finite 1 (-1); Microphone.Finite (-3) (-2)])%nat
    /\ int16_samples bytes
       = map Microphone.quantize [Microphone.Finite 1 (-1); Microphone.Finite (-3) (-2)].
Proof.
  apply (proj2 (microphone_frame_round_trip
                  (VoiceAssistant.startSession (VoiceAssistant.Connected 1)
                     VoiceAssistant.initial)
                  [Microphone.Finite 1 (-1); Microphone.Finite (-3) (-2)])).
  discriminate.
Defined.

(** X22.  The quantiser does not clamp: a sample is scaled by 32768,
    truncated toward zero and wrapped into 16 bits.  A sample whose scaled
    value lies in -32768..32767 (the samples in [-1, 1)) is stored as that
    value; one whose scaled value lies in 32768..65535 (the samples in
    [1, 2)) is stored 65536 lower, as a negative value, so the full-scale
    sample 1.0 is stored as -32768; NaN and the infinities are stored
    as 0. *)
Theorem quantize_wraps :
  (forall x, (-32768 <= Microphone.quantize x <= 32767)%Z)
  /\ (forall x, (-32768 <= Microphone.scaled x <= 32767)%Z ->
                Microphone.quantize x = Microphone.scaled x)
  /\ (forall x, (32768 <= Microphone.scaled x <= 65535)%Z ->
                Microphone.quantize x = (Microphone.scaled x - 65536)%Z)
  /\ Microphone.quantize (Microphone.Finite 1 0) = (-32768)%Z
  /\ Microphone.quantize Microphone.NaN = 0%Z
  /\ (forall negative, Microphone.quantize (Microphone.Infinity negative) = 0%Z).
Proof.
  split; [intros x; apply ToInt16_range|].
  split; [|split; [|repeat split]].
  - intros x Hx. unfold Microphone.quantize, Microphone.ToInt16.
    destruct (Z.ltb_spec (Microphone.scaled x mod 65536) 32768);
      Z.to_euclidean_division_equations; lia.
  - intros x Hx. unfold Microphone.quantize, Microphone.ToInt16.
    destruct (Z.ltb_spec (Microphone.scaled x mod 65536) 32768);
      Z.to_euclidean_division_equations; lia.
Qed.

Lemma quantize_wraps_witness :
  Microphone.quantize (Microphone.Finite 3 (-1)) = (Microphone.scaled (Microphone.Finite 3 (-1)) - 65536)%Z.
Proof.
  apply (proj1 (proj2 (proj2 quantize_wraps)) (Microphone.Finite 3 (-1))).
  vm_compute. split; discriminate.
Defined.

(** ** The question modal *)

Lemma modal_run_cons (e : Modal.Event) (es : list Modal.Event) (s : Modal.Ui) :
  Modal.run (e :: es) s = Modal.run es (Modal.step e s).
Proof. reflexivity. Qed.

(** X23.  The answer fetch has no staleness check: when a second question
    is clicked before the first answer arrives and the first answer settles
    last, the modal of the second question shows the first question's
    answer, the spinner is gone, and the clip requested is the first
    question's. *)
Theorem late_answer_lands_in_newer_modal :
  forall (s : Modal.Ui) (q1 q2 : Question) (r1 r2 : AI.AIResponse),
    let k := length (Modal.answers s) in
    let s' := Modal.run [Modal.QuestionClick q1; Modal.QuestionClick q2;
                         Modal.AnswerSettled (S k) (Some r2);
                         Modal.AnswerSettled k (Some r1)] s in
    Modal.selectedQuestion s' = Some q2
    /\ Modal.aiResponse s' = Some r1
    /\ Modal.isLoading s' = false
    /\ App.activeAudioQuestionIdRef (Modal.player s') = Some (id q1)
    /\ last (App.pending (Modal.player s')) = Some (App.AwaitFetch (id q1)).
Proof.
  intros s q1 q2 r1 r2 k s'. subst s'.
  rewrite !modal_run_cons. cbn [Modal.step]. change (Modal.run [] ?x) with x.
  set (s2 := Modal.handleQuestionClick q2 (Modal.handleQuestionClick q1 s)).
  assert (Ha : Modal.answers s2
               = Modal.answers s ++ [Modal.AwaitAnswer q1; Modal.AwaitAnswer q2]).
  { subst s2. simpl. now rewrite <- app_assoc. }
  assert (Hk1 : Modal.answers s2 !! S k = Some (Modal.AwaitAnswer q2)).
  { rewrite Ha, lookup_app_r by (subst k; lia).
    now replace (S k - length (Modal.answers s))%nat with 1%nat by (subst k; lia). }
  assert (Hk0 : Modal.answers s2 !! k = Some (Modal.AwaitAnswer q1)).
  { rewrite Ha. now apply list_lookup_middle. }
  assert (H3 : Modal.answer_settled (S k) (Some r2) s2
               = {| Modal.selectedQuestion := Modal.selectedQuestion s2;
                    Modal.aiResponse := Some r2;
                    Modal.isLoading := false;
                    Modal.error := Modal.error s2;
                    Modal.syncedIds := {[ id q2 ]} ∪ Modal.syncedIds s2;
                    Modal.player := App.playAudio (id q2) (AI.answer r2) (Modal.player s2);
                    Modal.answers := <[S k := Modal.AnswerDone]> (Modal.answers s2) |}).
  { unfold Modal.answer_settled. now rewrite Hk1. }
  rewrite H3. clear H3.
  unfold Modal.answer_settled. cbn [Modal.answers].
  rewrite list_lookup_insert_ne by lia. rewrite Hk0.
  cbn [Modal.selectedQuestion Modal.aiResponse Modal.isLoading Modal.player].
  split; [reflexivity|]. split; [reflexivity|]. split; [reflexivity|].
  split; [reflexivity|].
  unfold App.playAudio at 1. cbn [App.pending]. apply last_snoc.
Qed.

(** X24.  Closing the modal does not cancel a pending answer: when the
    answer arrives after the modal was closed, its clip is requested all
    the same, and once the audio is fetched and decoded it starts playing
    with no question selected. *)
Theorem answer_after_close_still_plays :
  forall (s : Modal.Ui) (q : Question) (r : AI.AIResponse) (audio : jsstring)
         (data : list byte) (b : AudioBuffer),
    decode audio = Some data -> decodeAudioData data = Some b ->
    let k := length (Modal.answers s) in
    let p := length (App.pending (Modal.player s)) in
    let s' := Modal.run [Modal.QuestionClick q; Modal.CloseModal;
                         Modal.AnswerSettled k (Some r);
                         Modal.Player (App.FetchSettled p (Some audio));
                         Modal.Player (App.DecodeSettled p)] s in
    Modal.selectedQuestion s' = None
    /\ Modal.aiResponse s' = Some r
    /\ App.isPlaying (Modal.player s') = true
    /\ last (App.nodes (Modal.player s'))
       = Some {| App.owner := id q; App.buffer := b; App.stopped := false |}.
Proof.
  intros s q r audio data b Hd Hb k p s'. subst s'.
  rewrite !modal_run_cons. cbn [Modal.step]. change (Modal.run [] ?x) with x.
  set (s2 := Modal.handleCloseModal (Modal.handleQuestionClick q s)).
  assert (Hk : Modal.answers s2 !! k = Some (Modal.AwaitAnswer q)).
  { subst s2. simpl. now apply list_lookup_middle. }
  assert (H3 : Modal.answer_settled k (Some r) s2
               = {| Modal.selectedQuestion := Modal.selectedQuestion s2;
                    Modal.aiResponse := Some r;
                    Modal.isLoading := false;
                    Modal.error := Modal.error s2;
                    Modal.syncedIds := {[ id q ]} ∪ Modal.syncedIds s2;
                    Modal.player := App.playAudio (id q) (AI.answer r) (Modal.player s2);
                    Modal.answers := <[k := Modal.AnswerDone]> (Modal.answers s2) |}).
  { unfold Modal.answer_settled. now rewrite Hk. }
  rewrite H3. clear H3.
  unfold Modal.player_event.
  cbn [Modal.selectedQuestion Modal.aiResponse Modal.player App.step].
  set (p3 := App.playAudio (id q) (AI.answer r) (Modal.player s2)).
  assert (Hp : App.pending p3 !! p = Some (App.AwaitFetch (id q))).
  { subst p3 s2. simpl. now apply list_lookup_middle. }
  destruct (settle_active_call p3 p (id q) audio data b Hp eq_refl Hd Hb)
    as (Hn & _ & Hplay & _).
  split; [reflexivity|]. split; [reflexivity|]. split; [exact Hplay|].
  rewrite Hn. now rewrite last_snoc.
Qed.

Lemma answer_after_close_still_plays_witness :
  App.isPlaying
    (Modal.player
       (Modal.run [Modal.QuestionClick question_signals; Modal.CloseModal;
                   Modal.AnswerSettled (length (Modal.answers Modal.initial))
                     (Some answer_signals);
                   Modal.Player (App.FetchSettled
                                   (length (App.pending (Modal.player Modal.initial)))
                                   (Some (js "AAAAAA==")));
                   Modal.Player (App.DecodeSettled
                                   (length (App.pending (Modal.player Modal.initial))))]
          Modal.initial))
  = true.
Proof.
  exact (proj1 (proj2 (proj2
           (answer_after_close_still_plays Modal.initial question_signals answer_signals
              (js "AAAAAA==") (repeat x00 4) (VoiceAssistant.silence 2)
              eq_refl eq_refl)))).
Defined.
